(** * EDNA: network device configuration backup

    A shallow embedding of the backup orchestration core of the EDNA
    backend (capability registry, device models, backup engine, device
    cache, filesystem sink with rotation, scheduler) together with the
    properties its specification states about it.

    Python objects with side effects are embedded by explicit state
    passing: a computation is a function from a state to an outcome
    (a returned value or a raised exception) and the next state.  Calls
    that leave the process (inventory queries, device sessions, sink
    writes, SQLite) are answered by an environment that sees the history
    of external calls made so far, and each such call is recorded. *)

From Stdlib Require Import String Ascii List ZArith Lia Bool Arith.
From stdpp Require Import base gmap strings list.
Import ListNotations.

(* ================================================================== *)
(** * Python runtime fragments *)
(* ================================================================== *)

Module Py.

(** The exception classes the backend raises or catches.  All of them
    derive from [Exception]. *)
Inductive exn : Type :=
| ModuleNotFoundError
| AttributeError
| TypeError
| ValueError
| OSError
| OperationalError
| NetMikoTimeoutException
| NetMikoAuthenticationException
| ReadTimeout
| FileNotFoundError
| Exception_ (msg : string).

Definition is_ModuleNotFoundError (e : exn) : bool :=
  match e with ModuleNotFoundError => true | _ => false end.

(** Outcome of a call: a value, or an exception in flight. *)
Inductive result (A : Type) : Type :=
| Return (a : A)
| Raise (e : exn).
Arguments Return {A} a.
Arguments Raise {A} e.

(** Computations over a mutable state [S].  State changes made before an
    exception is raised persist, as in Python. *)
Definition M (S A : Type) : Type := S -> result A * S.

Definition ret {S A} (a : A) : M S A := fun s => (Return a, s).

Definition raise {S A} (e : exn) : M S A := fun s => (Raise e, s).

Definition bind {S A B} (c : M S A) (k : A -> M S B) : M S B :=
  fun s => match c s with
           | (Return a, s') => k a s'
           | (Raise e, s') => (Raise e, s')
           end.

(** [try: body / except Exception as e: handler e]. *)
Definition try_except {S A} (body : M S A) (handler : exn -> M S A) : M S A :=
  fun s => match body s with
           | (Return a, s') => (Return a, s')
           | (Raise e, s') => handler e s'
           end.

Definition get {S} : M S S := fun s => (Return s, s).

Definition modify {S} (f : S -> S) : M S unit := fun s => (Return tt, f s).

(** Lift an outcome that does not touch the state. *)
Definition lift {S A} (r : result A) : M S A := fun s => (r, s).

(** ** Truthiness *)

(** [if x:] for [x : Optional[str]]: [None] and the empty string are falsy. *)
Definition truthy_str (x : option string) : bool :=
  match x with
  | Some EmptyString => false
  | Some _ => true
  | None => false
  end.

(** [if xs:] for a list. *)
Definition truthy_list {A} (xs : list A) : bool :=
  match xs with [] => false | _ => true end.

(** ** [str] methods

    A [str] is held as its UTF-8 bytes.  Splitting at an ASCII
    separator, joining, comparing and testing a prefix or a suffix are
    the same on the bytes as on the characters.  Changing the case of
    letters is not: on ASCII text it is the arithmetic below, on text
    with a character beyond ASCII it follows the case tables of the
    Unicode database, which are no part of the program and are left to
    the environment (see [env_capitalize]). *)

Definition is_upper (c : ascii) : bool :=
  (65 <=? nat_of_ascii c) && (nat_of_ascii c <=? 90).

Definition is_lower (c : ascii) : bool :=
  (97 <=? nat_of_ascii c) && (nat_of_ascii c <=? 122).

Definition upper_char (c : ascii) : ascii :=
  if is_lower c then ascii_of_nat (nat_of_ascii c - 32) else c.

Definition lower_char (c : ascii) : ascii :=
  if is_upper c then ascii_of_nat (nat_of_ascii c + 32) else c.

(** [s.isascii()]: every byte is below 128. *)
Fixpoint isascii (s : string) : bool :=
  match s with
  | EmptyString => true
  | String c r => (nat_of_ascii c <? 128) && isascii r
  end.

(** [s.lower()] on ASCII text. *)
Fixpoint lower (s : string) : string :=
  match s with
  | EmptyString => EmptyString
  | String c r => String (lower_char c) (lower r)
  end.

(** [s.capitalize()]: on ASCII text the first character upper-cased and
    the rest lower-cased; on any other text what the Unicode tables
    [beyond_ascii] give. *)
Definition capitalize (beyond_ascii : string -> string) (s : string) : string :=
  if isascii s then
    match s with
    | EmptyString => EmptyString
    | String c r => String (upper_char c) (lower r)
    end
  else beyond_ascii s.

(** [s.split(sep)] for a one-character separator; never returns []. *)
Fixpoint split (sep : ascii) (s : string) : list string :=
  match s with
  | EmptyString => [EmptyString]
  | String c r =>
      if Ascii.eqb c sep then EmptyString :: split sep r
      else match split sep r with
           | w :: ws => String c w :: ws
           | [] => [String c EmptyString]
           end
  end.

(** [sep.join(parts)]. *)
Definition join (sep : string) (parts : list string) : string :=
  String.concat sep parts.

(** [s.startswith(p)] and [s.endswith(p)]. *)
Definition startswith (p s : string) : bool := String.prefix p s.

Definition endswith (p s : string) : bool :=
  (String.length p <=? String.length s) &&
  String.eqb (String.substring (String.length s - String.length p) (String.length p) s) p.

(** [xs[i:]] for a Python integer [i] (negative indices count from the end). *)
Definition slice_from {A} (i : Z) (xs : list A) : list A :=
  if (0 <=? i)%Z then drop (Z.to_nat i) xs
  else drop (Z.to_nat (Z.max 0 (Z.of_nat (length xs) + i))) xs.

(** A configuration value as YAML delivers it. *)
Inductive pyval : Type :=
| PNone
| PBool (b : bool)
| PInt (z : Z)
| PStr (s : string).

(** [if v:] / [not v] on a configuration value. *)
Definition truthy (v : pyval) : bool :=
  match v with
  | PNone => false
  | PBool b => b
  | PInt z => negb (z =? 0)%Z
  | PStr s => negb (String.eqb s "")
  end.

(** [d.get(key, default)]. *)
Definition dict_get (d : gmap string pyval) (key : string) (default : pyval) : pyval :=
  match d !! key with Some v => v | None => default end.

(** [v == s] for a string literal [s]. *)
Definition eq_str (v : pyval) (s : string) : bool :=
  match v with PStr s' => String.eqb s' s | _ => false end.

End Py.

Import Py.

Notation "'let!' x ':=' c1 'in' c2" := (Py.bind c1 (fun x => c2))
  (at level 10, x name, c1 at level 100, c2 at level 200, only parsing).

Abbreviation cfg := (gmap string pyval).

(* ================================================================== *)
(** * classes/: Device, modules and device models *)
(* ================================================================== *)

(** classes/device.py *)
Record Device : Type := {
  name : string;
  host : string;
  device_type : string;
  username : option string;
  password : option string;
  last_backup : option string
}.

(** An inventory source or storage sink object.  [inst_id] is the
    object's identity ([id(obj)]); [inst_config] is [BaseModule.config],
    the configuration block the constructor received. *)
Record instance : Type := {
  inst_id : nat;
  inst_class : string;
  inst_config : cfg
}.

(** The classes found in the namespaces of modules/models/*.py.
    [DeviceModel] is the abstract base every model file imports. *)
Inductive model_class : Type :=
| DeviceModel
| CiscoIos | CiscoXe
| CiscoNxos
| CiscoS300
| Fortios | Fortigate | Fortinet
| Routeros | Mikrotik | MikrotikRouteros.

(** A device model object. *)
Record model : Type := {
  model_id : nat;
  model_cls : model_class
}.

Module Models.

(** classes/device_model.py: the base [process_config] returns its input. *)
Definition DeviceModel_process_config (config : string) : string := config.

(** [get_commands], resolved along the class hierarchy: an alias class
    with an empty body inherits its parent's method. *)
Fixpoint get_commands_mro (fuel : nat) (parent : model_class -> option model_class)
    (own : model_class -> option (list string)) (c : model_class) : list string :=
  match own c with
  | Some cmds => cmds
  | None =>
      match fuel, parent c with
      | S fuel', Some p => get_commands_mro fuel' parent own p
      | _, _ => []
      end
  end.

(** The base class of each class. *)
Definition parent (c : model_class) : option model_class :=
  match c with
  | DeviceModel => None
  | CiscoIos => Some DeviceModel
  | CiscoXe => Some CiscoIos
  | CiscoNxos => Some DeviceModel
  | CiscoS300 => Some DeviceModel
  | Fortios => Some DeviceModel
  | Fortigate => Some Fortios
  | Fortinet => Some Fortios
  | Routeros => Some DeviceModel
  | Mikrotik => Some Routeros
  | MikrotikRouteros => Some Routeros
  end.

(** The [get_commands] bodies the model files define. *)
Definition own_get_commands (c : model_class) : option (list string) :=
  match c with
  | CiscoIos => Some ["show version"; "show running-config"]
  | CiscoNxos => Some ["show version"; "show inventory"; "show running-config"]
  | CiscoS300 => Some ["show running-config"]
  | Fortios => Some ["get system status"; "show | grep ."]
  | Routeros => Some ["/system resource print"; "/system package update print";
                      "/system routerboard print"; "/export"]
  | _ => None
  end.

Definition get_commands (m : model) : list string :=
  get_commands_mro 2 parent own_get_commands (model_cls m).

(** Every model's [process_config] is [super().process_config(config)]
    or [return config]: the identity on the raw text. *)
Definition process_config (m : model) (config : string) : string :=
  match model_cls m with
  | Fortios | Fortigate | Fortinet => config
  | _ => DeviceModel_process_config config
  end.

(** [DeviceModel] has abstract methods and cannot be instantiated. *)
Definition is_abstract (c : model_class) : bool :=
  match c with DeviceModel => true | _ => false end.

(** modules/models/: file stem and the class names bound in the module's
    namespace (the classes it defines and the imported [DeviceModel]). *)
Definition models_dir : list (string * list (string * model_class)) :=
  [ ("cisco_ios", [("DeviceModel", DeviceModel); ("CiscoIos", CiscoIos); ("CiscoXe", CiscoXe)]);
    ("cisco_nxos", [("DeviceModel", DeviceModel); ("CiscoNxos", CiscoNxos)]);
    ("cisco_s300", [("DeviceModel", DeviceModel); ("CiscoS300", CiscoS300)]);
    ("fortios", [("DeviceModel", DeviceModel); ("Fortios", Fortios);
                 ("Fortigate", Fortigate); ("Fortinet", Fortinet)]);
    ("routeros", [("DeviceModel", DeviceModel); ("Routeros", Routeros);
                  ("Mikrotik", Mikrotik); ("MikrotikRouteros", MikrotikRouteros)]) ].

End Models.

(* ================================================================== *)
(** * The process state and its environment *)
(* ================================================================== *)

(** Calls that leave the process, in the order they are made.
    [EvUpsert devices] is [upsert_devices(devices)] opening the
    database, [EvInsert d] one of its [INSERT] statements, [EvCommit]
    its commit; [EvRemoveStale hours] is [remove_stale_devices(hours)]
    with its one [DELETE] statement. *)
Inductive event : Type :=
| EvMkdir (path : string)
| EvGetDevices (source : instance)
| EvConnect (d : Device)
| EvSendCommand (d : Device) (cmd : string)
| EvDisconnect (d : Device)
| EvSaveBackup (sink : instance) (d : Device) (config : string)
| EvUpsert (devices : list Device)
| EvInsert (d : Device)
| EvCommit
| EvRemoveStale (hours : Z).

(** What the outside world answers, given the calls made so far:
    [env_sqlite] is SQLite's answer to opening the database, to a
    statement or to a commit, [env_now] the clock in seconds.
    [env_capitalize] is [str.capitalize] on text with a character beyond
    ASCII, the one part of the interpreter the program's behaviour
    depends on that is not spelled out here. *)
Record Env : Type := {
  env_mkdir : list event -> string -> result unit;
  env_get_devices : list event -> instance -> result (list Device);
  env_connect : list event -> Device -> result unit;
  env_send_command : list event -> Device -> string -> result string;
  env_save_backup : list event -> instance -> Device -> string -> result unit;
  env_sqlite : list event -> result unit;
  env_now : list event -> Z;
  env_capitalize : string -> string
}.

(** core/plugin_manager.py: the three caches of a [PluginManager]. *)
Record PluginManager : Type := {
  _input_cache : gmap string instance;
  _output_cache : gmap string instance;
  _model_cache : gmap string model
}.

(** A row of the [devices] table (core/database.py, [_init_db]);
    timestamps are seconds. *)
Record row : Type := {
  row_name : string;
  row_host : string;
  row_device_type : string;
  row_last_backup : Z;
  row_created_at : Z
}.

(** The state a [BackupScheduler] owns, the allocator of object
    identities, and the history of external calls (oldest first). *)
Record world : Type := {
  plugin_manager : PluginManager;
  database : list row;
  last_run : option Z;
  next_id : nat;
  trace : list event
}.

Definition set_plugin_manager (f : PluginManager -> PluginManager) (w : world) : world :=
  {| plugin_manager := f (plugin_manager w); database := database w;
     last_run := last_run w; next_id := next_id w; trace := trace w |}.

Definition set_database (f : list row -> list row) (w : world) : world :=
  {| plugin_manager := plugin_manager w; database := f (database w);
     last_run := last_run w; next_id := next_id w; trace := trace w |}.

Definition set_last_run (t : Z) (w : world) : world :=
  {| plugin_manager := plugin_manager w; database := database w;
     last_run := Some t; next_id := next_id w; trace := trace w |}.

Definition record_event (ev : event) (w : world) : world :=
  {| plugin_manager := plugin_manager w; database := database w;
     last_run := last_run w; next_id := next_id w; trace := trace w ++ [ev] |}.

(** An external call: the environment answers from the history before
    the call, and the call is recorded whatever the answer. *)
Definition external {A} (ev : event) (answer : list event -> result A) : M world A :=
  fun w => (answer (trace w), record_event ev w).

(** Allocation of a new object: a fresh identity. *)
Definition fresh : M world nat :=
  fun w => (Return (next_id w),
            {| plugin_manager := plugin_manager w; database := database w;
               last_run := last_run w; next_id := S (next_id w); trace := trace w |}).

(** The state of a freshly constructed scheduler. *)
Definition initial_world : world :=
  {| plugin_manager := {| _input_cache := ∅; _output_cache := ∅; _model_cache := ∅ |};
     database := []; last_run := None; next_id := 0; trace := [] |}.

(* ================================================================== *)
(** * core/plugin_manager.py *)
(* ================================================================== *)

Module PluginManagerImpl.

(** The inventory-source and storage-sink classes reachable through
    modules/input/ and modules/output/, with the abstract bases those
    files import. *)
Inductive module_class : Type :=
| InputModule
| OutputModule
| Netbox
| Filesystem.

(** modules/input/ and modules/output/: file stem and the classes bound
    in the module's namespace. *)
Definition input_dir : list (string * list (string * module_class)) :=
  [ ("netbox", [("InputModule", InputModule); ("Netbox", Netbox)]) ].

Definition output_dir : list (string * list (string * module_class)) :=
  [ ("filesystem", [("OutputModule", OutputModule); ("Filesystem", Filesystem)]) ].

(** Association-list lookup by string key. *)
Fixpoint assoc {C} (key : string) (l : list (string * C)) : option C :=
  match l with
  | [] => None
  | (k, v) :: rest => if String.eqb k key then Some v else assoc key rest
  end.

(** [import_module(f'<package>.{stem}')]. *)
Definition import_module {C} (package : list (string * list (string * C))) (stem : string)
    : result (list (string * C)) :=
  match assoc stem package with
  | Some namespace => Return namespace
  | None => Raise ModuleNotFoundError
  end.

Definition hasattr {C} (namespace : list (string * C)) (attr : string) : bool :=
  match assoc attr namespace with Some _ => true | None => false end.

Definition getattr {C} (namespace : list (string * C)) (attr : string) : result C :=
  match assoc attr namespace with
  | Some c => Return c
  | None => Raise AttributeError
  end.

Section WithEnv.
Variable E : Env.

(** [''.join(word.capitalize() for word in type_name.split('_'))]. *)
Definition class_name_of (type_name : string) : string :=
  join "" (map (capitalize (env_capitalize E)) (split "_" type_name)).

Definition new_instance (cls : string) (config : cfg) : M world instance :=
  let! i := fresh in
  ret {| inst_id := i; inst_class := cls; inst_config := config |}.

(** [module_class(config)]: modules/input/netbox.py [Netbox.__init__]
    and modules/output/filesystem.py [Filesystem.__init__]; the abstract
    bases cannot be instantiated. *)
Definition construct (c : module_class) (config : cfg) : M world instance :=
  match c with
  | Netbox =>
      let url := dict_get config "url" PNone in
      let token := dict_get config "token" PNone in
      if negb (truthy url) || negb (truthy token) then raise ValueError
      else new_instance "Netbox" config
  | Filesystem =>
      match dict_get config "path" (PStr "/var/backups/network") with
      | PStr p =>
          let! _ := external (EvMkdir p) (fun h => env_mkdir E h p) in
          new_instance "Filesystem" config
      | _ => raise TypeError
      end
  | InputModule | OutputModule => raise TypeError
  end.

Definition cache_input (module_type : string) (inst : instance) : M world unit :=
  modify (set_plugin_manager (fun pm =>
    {| _input_cache := <[module_type := inst]> (_input_cache pm);
       _output_cache := _output_cache pm; _model_cache := _model_cache pm |})).

Definition cache_output (module_type : string) (inst : instance) : M world unit :=
  modify (set_plugin_manager (fun pm =>
    {| _input_cache := _input_cache pm;
       _output_cache := <[module_type := inst]> (_output_cache pm);
       _model_cache := _model_cache pm |})).

Definition cache_model (device_type : string) (m : model) : M world unit :=
  modify (set_plugin_manager (fun pm =>
    {| _input_cache := _input_cache pm; _output_cache := _output_cache pm;
       _model_cache := <[device_type := m]> (_model_cache pm) |})).

Definition load_input_module (module_type : string) (config : cfg) : M world instance :=
  let! w := get in
  match _input_cache (plugin_manager w) !! module_type with
  | Some inst => ret inst
  | None =>
      try_except
        (let! module := lift (import_module input_dir module_type) in
         let class_name := class_name_of module_type in
         let! module_class := lift (getattr module class_name) in
         let! inst := construct module_class config in
         let! _ := cache_input module_type inst in
         ret inst)
        (fun e => raise e)
  end.

Definition load_output_module (module_type : string) (config : cfg) : M world instance :=
  let! w := get in
  match _output_cache (plugin_manager w) !! module_type with
  | Some inst => ret inst
  | None =>
      try_except
        (let! module := lift (import_module output_dir module_type) in
         let class_name := class_name_of module_type in
         let! module_class := lift (getattr module class_name) in
         let! inst := construct module_class config in
         let! _ := cache_output module_type inst in
         ret inst)
        (fun e => raise e)
  end.

(** [model_class()]. *)
Definition instantiate_model (c : model_class) : M world model :=
  if Models.is_abstract c then raise TypeError
  else let! i := fresh in ret {| model_id := i; model_cls := c |}.

(** The second-stage loop of [get_device_model] over
    [models_dir.glob('*.py')]: [Some] is the [return] from inside the
    loop, [None] is the loop running to its end. *)
Fixpoint scan_models (class_name device_type : string)
    (files : list (string * list (string * model_class))) : M world (option model) :=
  match files with
  | [] => ret None
  | (stem, module) :: rest =>
      if startswith "_" stem then scan_models class_name device_type rest
      else
        let! found :=
          try_except
            (if hasattr module class_name then
               let! model_class := lift (getattr module class_name) in
               let! inst := instantiate_model model_class in
               let! _ := cache_model device_type inst in
               ret (Some inst)
             else ret None)
            (fun _ => ret None) in
        match found with
        | Some inst => ret (Some inst)
        | None => scan_models class_name device_type rest
        end
  end.

Definition no_model_found (device_type class_name : string) : exn :=
  Exception_ ("No model found for device type '" +:+ device_type +:+
              "' (class '" +:+ class_name +:+ "')").

Definition get_device_model (device_type : string) : M world model :=
  let! w := get in
  match _model_cache (plugin_manager w) !! device_type with
  | Some inst => ret inst
  | None =>
      let class_name := class_name_of device_type in
      let! found :=
        try_except
          (let! module := lift (import_module Models.models_dir device_type) in
           let! model_class := lift (getattr module class_name) in
           let! inst := instantiate_model model_class in
           let! _ := cache_model device_type inst in
           ret (Some inst))
          (fun e =>
             if is_ModuleNotFoundError e then
               try_except (scan_models class_name device_type Models.models_dir)
                          (fun _ => ret None)
             else ret None) in
      match found with
      | Some inst => ret inst
      | None => raise (no_model_found device_type class_name)
      end
  end.

End WithEnv.

End PluginManagerImpl.

(* ================================================================== *)
(** * core/engine.py *)
(* ================================================================== *)

Module BackupEngine.

Section WithEnv.
Variable E : Env.

(** The line feed, Python's ["\n"]. *)
Definition nl : string := String (ascii_of_nat 10) EmptyString.

(** [f"! Command: {cmd}\n{output}\n"]. *)
Definition segment (cmd output : string) : string :=
  "! Command: " +:+ cmd +:+ nl +:+ output +:+ nl.

(** The [for cmd in commands] loop: each command is sent in turn and its
    delimited output appended; a raising [send_command] leaves the loop. *)
Fixpoint send_commands (device : Device) (commands : list string)
    (config_output : list string) : M world (list string) :=
  match commands with
  | [] => ret config_output
  | cmd :: rest =>
      let! output := external (EvSendCommand device cmd)
                              (fun h => env_send_command E h device cmd) in
      send_commands device rest (config_output ++ [segment cmd output])
  end.

(** [with ConnectHandler(...) as conn: body]: the session is opened, and
    once open it is closed on every way out of [body]. *)
Definition with_ConnectHandler {A} (device : Device) (body : M world A) : M world A :=
  let! _ := external (EvConnect device) (fun h => env_connect E h device) in
  fun w => match body w with
           | (r, w') => (r, record_event (EvDisconnect device) w')
           end.

Definition backup_device (device : Device) (m : model) : M world (option string) :=
  try_except
    (with_ConnectHandler device
       (let commands := Models.get_commands m in
        let! config_output := send_commands device commands [] in
        let config := Models.process_config m (join nl config_output) in
        ret (Some config)))
    (fun e =>
       match e with
       | NetMikoTimeoutException => ret None
       | NetMikoAuthenticationException => ret None
       | _ => ret None
       end).

End WithEnv.

End BackupEngine.

(* ================================================================== *)
(** * core/database.py *)
(* ================================================================== *)

Module DeviceDatabase.

(** One [INSERT ... ON CONFLICT(name) DO UPDATE] statement executed at
    time [now]: the row of that name gets the new host, device type and
    [last_backup] and keeps [created_at]; without such a row one is
    inserted, both timestamps defaulting to [now]. *)
Fixpoint upsert (now : Z) (d : Device) (table : list row) : list row :=
  match table with
  | [] => [ {| row_name := name d; row_host := host d;
               row_device_type := device_type d;
               row_last_backup := now; row_created_at := now |} ]
  | r :: rest =>
      if String.eqb (row_name r) (name d) then
        {| row_name := row_name r; row_host := host d;
           row_device_type := device_type d;
           row_last_backup := now; row_created_at := row_created_at r |} :: rest
      else r :: upsert now d rest
  end.

(** [DELETE FROM devices WHERE last_backup < datetime('now', '-N hours')]. *)
Definition delete_stale (now hours : Z) (table : list row) : list row :=
  List.filter (fun r => negb (row_last_backup r <? now - hours * 3600)%Z) table.

(** [SELECT ... WHERE name = ?]. *)
Definition select_by_name (n : string) (table : list row) : list row :=
  List.filter (fun r => String.eqb (row_name r) n) table.

Section WithEnv.
Variable E : Env.

(** [conn.execute("INSERT ...", (device.name, device.host,
    device.device_type))]: SQLite reads [CURRENT_TIMESTAMP] when the
    statement runs, so each statement of a call has a time of its own. *)
Definition execute_upsert (device : Device) : M world unit :=
  let! w := get in
  let now := env_now E (trace w) in
  let! _ := external (EvInsert device) (env_sqlite E) in
  modify (set_database (upsert now device)).

(** The [for device in devices] loop of [upsert_devices]. *)
Fixpoint upsert_each (devices : list Device) : M world unit :=
  match devices with
  | [] => ret tt
  | device :: rest =>
      let! _ := execute_upsert device in
      upsert_each rest
  end.

(** [with connect(self.db_path) as conn: body]: the database is opened,
    and an exception leaving [body] rolls back what its statements
    changed. *)
Definition with_connect {A} (opening : event) (body : M world A) : M world A :=
  let! w0 := get in
  let! _ := external opening (env_sqlite E) in
  try_except body
    (fun e =>
       let! _ := modify (set_database (fun _ => database w0)) in
       raise e).

Definition upsert_devices (devices : list Device) : M world unit :=
  with_connect (EvUpsert devices)
    (let! _ := upsert_each devices in
     external EvCommit (env_sqlite E)).

(** [remove_stale_devices]: opening the database, the one statement and
    the commit are taken as one call, which either takes effect or
    fails and changes nothing. *)
Definition remove_stale_devices (hours : Z) : M world unit :=
  let! w := get in
  let now := env_now E (trace w) in
  let! _ := external (EvRemoveStale hours) (env_sqlite E) in
  modify (set_database (delete_stale now hours)).

End WithEnv.

End DeviceDatabase.

(* ================================================================== *)
(** * core/scheduler.py *)
(* ================================================================== *)

Module BackupScheduler.

(** An entry of [config.input] or [config.output]: a dict with the keys
    ['type'] and ['config']. *)
Record entry : Type := {
  entry_type : string;
  entry_config : cfg
}.

(** core/config.py [Config], the parts a run reads. *)
Record Config : Type := {
  input : list entry;
  output : list entry;
  max_workers : Z
}.

(** The dict a run returns. *)
Record results : Type := {
  success : nat;
  failed : nat;
  total : nat
}.

Section WithEnv.
Variable E : Env.

(** The [for output_module in output_modules] loop of
    [_backup_single_device], each write under its own [try]. *)
Fixpoint save_to_outputs (device : Device) (config : string)
    (output_modules : list instance) : M world unit :=
  match output_modules with
  | [] => ret tt
  | output_module :: rest =>
      let! _ := try_except
                  (external (EvSaveBackup output_module device config)
                            (fun h => env_save_backup E h output_module device config))
                  (fun _ => ret tt) in
      save_to_outputs device config rest
  end.

Definition _backup_single_device (device : Device) (output_modules : list instance)
    : M world (option string) :=
  try_except
    (let! model := PluginManagerImpl.get_device_model E (device_type device) in
     let! config := BackupEngine.backup_device E device model in
     if truthy_str config then
       let! _ := save_to_outputs device (default EmptyString config) output_modules in
       ret (Some (name device))
     else ret None)
    (fun _ => ret None).

(** The [for source in self.config.input] loop shared by [sync_devices]
    and [run_backup]. *)
Fixpoint load_devices (sources : list entry) (all_devices : list Device)
    : M world (list Device) :=
  match sources with
  | [] => ret all_devices
  | source :: rest =>
      let! all_devices' :=
        try_except
          (let! input_module := PluginManagerImpl.load_input_module E
                                  (entry_type source) (entry_config source) in
           let! devices := external (EvGetDevices input_module)
                                    (fun h => env_get_devices E h input_module) in
           ret (all_devices ++ devices))
          (fun _ => ret all_devices) in
      load_devices rest all_devices'
  end.

(** The [for dest in self.config.output] loop of [run_backup]. *)
Fixpoint load_outputs (dests : list entry) (output_modules : list instance)
    : M world (list instance) :=
  match dests with
  | [] => ret output_modules
  | dest :: rest =>
      let! output_modules' :=
        try_except
          (let! output_module := PluginManagerImpl.load_output_module E
                                   (entry_type dest) (entry_config dest) in
           ret (output_modules ++ [output_module]))
          (fun _ => ret output_modules) in
      load_outputs rest output_modules'
  end.

(** [executor.submit(self._backup_single_device, device, output_modules)]
    for every device: each unit of work runs to its end and its outcome,
    value or exception, is kept in its future.  The workers are run one
    after the other, in submission order. *)
Fixpoint submit_all (devices : list Device) (output_modules : list instance)
    : M world (list (result (option string))) :=
  match devices with
  | [] => ret []
  | device :: rest =>
      let! outcome := (fun w => match _backup_single_device device output_modules w with
                                | (r, w') => (Return r, w')
                                end) in
      let! outcomes := submit_all rest output_modules in
      ret (outcome :: outcomes)
  end.

(** The [for future in as_completed(futures)] loop: [future.result()]
    returns the worker's value or re-raises its exception. *)
Fixpoint collect (futures : list (result (option string))) (res : results)
    (successful_devices : list string) : M world results :=
  match futures with
  | [] => ret res
  | future :: rest =>
      let! device_name := lift future in
      if truthy_str device_name then
        collect rest
          {| success := success res + 1; failed := failed res; total := total res |}
          (successful_devices ++ [default EmptyString device_name])
      else
        collect rest
          {| success := success res; failed := failed res + 1; total := total res |}
          successful_devices
  end.

(** [with ThreadPoolExecutor(max_workers=max_workers) as executor]: the
    constructor rejects a worker count below one. *)
Definition ThreadPoolExecutor {A} (max_workers : Z) (body : M world A) : M world A :=
  if (max_workers <=? 0)%Z then raise ValueError else body.

Definition stamp_last_run : M world unit :=
  fun w => (Return tt, set_last_run (env_now E (trace w)) w).

(** The [try] block of [run_backup]. *)
Definition run_backup_try (config : Config) : M world results :=
  let! all_devices := load_devices (input config) [] in
  if negb (truthy_list all_devices) then
    ret {| success := 0; failed := 0; total := 0 |}
  else
    let! output_modules := load_outputs (output config) [] in
    if negb (truthy_list output_modules) then
      ret {| success := 0; failed := 0; total := length all_devices |}
    else
      let res := {| success := 0; failed := 0; total := length all_devices |} in
      let! res' := ThreadPoolExecutor (max_workers config)
                     (let! futures := submit_all all_devices output_modules in
                      collect futures res []) in
      let! _ := DeviceDatabase.upsert_devices E all_devices in
      ret res'.

Definition run_backup (config : Config) : M world results :=
  let! _ := stamp_last_run in
  try_except (run_backup_try config)
             (fun _ => ret {| success := 0; failed := 0; total := 0 |}).

Definition sync_devices (config : Config) : M world unit :=
  let! _ := stamp_last_run in
  try_except
    (let! all_devices := load_devices (input config) [] in
     let! _ := (if truthy_list all_devices
                then DeviceDatabase.upsert_devices E all_devices
                else ret tt) in
     DeviceDatabase.remove_stale_devices E 24)
    (fun _ => ret tt).

End WithEnv.

End BackupScheduler.

(* ================================================================== *)
(** * modules/output/filesystem.py *)
(* ================================================================== *)

Module FilesystemOutput.

(** A directory entry: a regular file with its modification time and
    text, or a symbolic link to a name in the same directory. *)
Inductive node : Type :=
| File (st_mtime : Z) (content : string)
| Symlink (target : string).

(** A directory: its entries in listing order.  The file system below
    [self.path]: its directories, by path, in traversal order.  It is a
    file system that refuses no operation: no permissions, no quota. *)
Abbreviation directory := (list (string * node)).
Abbreviation filesystem := (list (string * directory)).

(** What the operating system supplies to one [save_backup]: the two
    renderings of [datetime.now()] and the modification time the written
    file is stamped with. *)
Record clock : Type := {
  date_str : string;
  timestamp : string;
  mtime : Z
}.

(** The attributes [__init__] reads from the configuration block. *)
Record Filesystem : Type := {
  path : string;
  retention : pyval;
  organize_by : pyval
}.

(** classes/backup.py, without the age label [elapsed_time]. *)
Record Backup : Type := {
  id : string;
  creation_time : Z
}.

Definition init (config : cfg) (p : string) : Filesystem :=
  {| path := p;
     retention := dict_get config "retention" (PInt 10);
     organize_by := dict_get config "organize_by" (PStr "device") |}.

(** [a / b] on paths, for [b] a plain file-name component (see
    [plain_name] below): the component appended to the path. *)
Definition path_join (a b : string) : string := a +:+ "/" +:+ b.

Fixpoint lookup_entry {A} (key : string) (l : list (string * A)) : option A :=
  match l with
  | [] => None
  | (k, v) :: rest => if String.eqb k key then Some v else lookup_entry key rest
  end.

(** Replace the entry of that name where it stands, or add it at the end. *)
Fixpoint put_entry {A} (key : string) (v : A) (l : list (string * A)) : list (string * A) :=
  match l with
  | [] => [(key, v)]
  | (k, v') :: rest =>
      if String.eqb k key then (k, v) :: rest else (k, v') :: put_entry key v rest
  end.

Definition remove_entry {A} (key : string) (l : list (string * A)) : list (string * A) :=
  List.filter (fun kv => negb (String.eqb (fst kv) key)) l.

Definition listing (dir : string) (fs : filesystem) : directory :=
  default [] (lookup_entry dir fs).

(** [device_dir.mkdir(parents=True, exist_ok=True)]. *)
Definition mkdir (dir : string) : M filesystem unit :=
  modify (fun fs => match lookup_entry dir fs with
                    | Some _ => fs
                    | None => put_entry dir [] fs
                    end).

(** Follow symbolic links from [file] inside one directory. *)
Fixpoint resolve (fuel : nat) (file : string) (d : directory) : option string :=
  match lookup_entry file d with
  | Some (Symlink target) =>
      match fuel with
      | O => None
      | S fuel' => resolve fuel' target d
      end
  | _ => Some file
  end.

(** [with open(dir / file, 'w') as f: f.write(text)]. *)
Definition write_text (dir file : string) (stamp : Z) (text : string) : M filesystem unit :=
  let! fs := get in
  let d := listing dir fs in
  match resolve (length d) file d with
  | Some real => modify (put_entry dir (put_entry real (File stamp text) d))
  | None => raise OSError
  end.

(** [with open(dir / file, 'r') as f: f.read()]. *)
Definition read_text (dir file : string) : M filesystem string :=
  let! fs := get in
  let d := listing dir fs in
  match resolve (length d) file d with
  | Some real =>
      match lookup_entry real d with
      | Some (File _ text) => ret text
      | _ => raise FileNotFoundError
      end
  | None => raise OSError
  end.

(** [p.exists() or p.is_symlink()]: some entry of that name is there. *)
Definition exists_or_is_symlink (dir file : string) (fs : filesystem) : bool :=
  match lookup_entry file (listing dir fs) with Some _ => true | None => false end.

(** [p.exists()]: the entry, links followed, is a file. *)
Definition exists_ (dir file : string) (fs : filesystem) : bool :=
  let d := listing dir fs in
  match resolve (length d) file d with
  | Some real => match lookup_entry real d with Some (File _ _) => true | _ => false end
  | None => false
  end.

Definition unlink (dir file : string) : M filesystem unit :=
  modify (fun fs => put_entry dir (remove_entry file (listing dir fs)) fs).

Definition symlink_to (dir link target : string) : M filesystem unit :=
  modify (fun fs => put_entry dir (put_entry link (Symlink target) (listing dir fs)) fs).

Definition is_symlink (n : node) : bool :=
  match n with Symlink _ => true | File _ _ => false end.

(** The pattern [f"{device_name}_*.cfg"] against a file name, for a
    device name without glob syntax (see [plain_name] below): the file
    name starts with the device name and an underscore and ends with
    [.cfg]. *)
Definition matches_backup_glob (device_name file : string) : bool :=
  (String.length device_name + 5 <=? String.length file) &&
  startswith (device_name +:+ "_") file && endswith ".cfg" file.

Definition latest_name (device_name : string) : string := device_name +:+ "_latest.cfg".

(** [x.stat().st_mtime] of a regular file. *)
Definition st_mtime_of (kv : string * node) : Z :=
  match snd kv with File t _ => t | Symlink _ => 0%Z end.

(** [list.sort(key=..., reverse=True)]: descending by key, entries of
    equal key keeping their order. *)
Fixpoint insert_desc (x : string * node) (l : list (string * node)) : list (string * node) :=
  match l with
  | [] => [x]
  | y :: rest =>
      if (st_mtime_of y <=? st_mtime_of x)%Z then x :: y :: rest
      else y :: insert_desc x rest
  end.

Fixpoint sort_newest_first (l : list (string * node)) : list (string * node) :=
  match l with
  | [] => []
  | x :: rest => insert_desc x (sort_newest_first rest)
  end.

(** The [for old_file in files_to_remove: old_file.unlink()] loop. *)
Fixpoint unlink_all (dir : string) (files : list (string * node)) : M filesystem unit :=
  match files with
  | [] => ret tt
  | old_file :: rest =>
      let! _ := unlink dir (fst old_file) in
      unlink_all dir rest
  end.

(** [len(backup_files) > self.retention] and [backup_files[self.retention:]]
    need an integer; [bool] is one. *)
Definition as_int (v : pyval) : result Z :=
  match v with
  | PInt z => Return z
  | PBool b => Return (if b then 1%Z else 0%Z)
  | _ => Raise TypeError
  end.

Definition _rotate_backups (self : Filesystem) (device_dir device_name : string)
    : M filesystem unit :=
  try_except
    (let! fs := get in
     let backup_files :=
       List.filter (fun f => negb (is_symlink (snd f)) &&
                             negb (String.eqb (fst f) (latest_name device_name)))
         (List.filter (fun f => matches_backup_glob device_name (fst f))
                      (listing device_dir fs)) in
     let backup_files := sort_newest_first backup_files in
     let! keep := lift (as_int (retention self)) in
     if (Z.of_nat (length backup_files) >? keep)%Z then
       let files_to_remove := slice_from keep backup_files in
       unlink_all device_dir files_to_remove
     else ret tt)
    (fun _ => ret tt).

Definition device_dir_of (self : Filesystem) (clk : clock) (device : Device) : string :=
  if eq_str (organize_by self) "device" then path_join (path self) (name device)
  else path_join (path_join (path self) (date_str clk)) (name device).

Definition backup_filename (device_name stamp : string) : string :=
  device_name +:+ "_" +:+ stamp +:+ ".cfg".

Definition save_backup (self : Filesystem) (clk : clock) (device : Device) (config : string)
    : M filesystem unit :=
  try_except
    (let device_dir := device_dir_of self clk device in
     let! _ := mkdir device_dir in
     let filename := backup_filename (name device) (timestamp clk) in
     let! _ := write_text device_dir filename (mtime clk) config in
     let latest_link := latest_name (name device) in
     let! fs := get in
     let! _ := (if exists_or_is_symlink device_dir latest_link fs
                then unlink device_dir latest_link else ret tt) in
     let! _ := symlink_to device_dir latest_link filename in
     _rotate_backups self device_dir (name device))
    (fun e => raise e).

(** A directory [self.path / ... / device_name], one level or more below
    [self.path]: where [rglob(f"*/{device_name}/...")] looks. *)
Definition is_dated_device_dir (self : Filesystem) (device_name dir : string) : bool :=
  (String.length (path self) + String.length device_name + 3 <=? String.length dir) &&
  startswith (path self +:+ "/") dir && endswith ("/" +:+ device_name) dir.

(** [self.path.rglob(f"*/{device_name}/...")]: the device's directories
    under every date. *)
Definition dated_device_dirs (self : Filesystem) (device_name : string) (fs : filesystem)
    : list (string * directory) :=
  List.filter (fun kv => is_dated_device_dir self device_name (fst kv)) fs.

Definition get_device_backups (self : Filesystem) (device_name : string) (fs : filesystem)
    : list Backup :=
  let dirs :=
    if eq_str (organize_by self) "device" then
      let device_dir := path_join (path self) device_name in
      match lookup_entry device_dir fs with
      | Some d => [(device_dir, d)]
      | None => []
      end
    else dated_device_dirs self device_name fs in
  let backup_files :=
    flat_map (fun kv => List.filter (fun f => negb (is_symlink (snd f)))
                          (List.filter (fun f => matches_backup_glob device_name (fst f))
                                       (snd kv)))
             dirs in
  map (fun f => {| id := fst f; creation_time := st_mtime_of f |})
      (sort_newest_first backup_files).

Definition get_backup_content (self : Filesystem) (device_name : string) (backup_id : string)
    : M filesystem string :=
  try_except
    (let! fs := get in
     let backup_file :=
       if eq_str (organize_by self) "device" then
         Some (path_join (path self) device_name)
       else head (map fst (List.filter
                             (fun kv => exists_or_is_symlink (fst kv) backup_id fs)
                             (dated_device_dirs self device_name fs))) in
     match backup_file with
     | Some dir =>
         if exists_ dir backup_id fs then read_text dir backup_id
         else raise FileNotFoundError
     | None => raise FileNotFoundError
     end)
    (fun e => raise e).

Definition get_device_last_backup_content (self : Filesystem) (device_name : string)
    : M filesystem string :=
  try_except (get_backup_content self device_name (latest_name device_name))
             (fun e => raise e).

(** [save_backup] once per snapshot, oldest first. *)
Fixpoint save_all (self : Filesystem) (device : Device) (snapshots : list (clock * string))
    : M filesystem unit :=
  match snapshots with
  | [] => ret tt
  | (clk, config) :: rest =>
      let! _ := save_backup self clk device config in
      save_all self device rest
  end.

End FilesystemOutput.

(** ** Vocabulary of the statements about rotation *)

Module RotationVocabulary.
Import FilesystemOutput.

(** The last [n] elements of a list. *)
Definition lastn {A} (n : nat) (l : list A) : list A := drop (length l - n) l.

(** Snapshots written one after the other to one device: modification
    times strictly increase, no two snapshots bear the same timestamp in
    their file names, and no timestamp reads [latest]. *)
Fixpoint well_timed (snapshots : list (clock * string)) : bool :=
  match snapshots with
  | [] => true
  | a :: rest =>
      negb (String.eqb (timestamp (fst a)) "latest") &&
      forallb (fun b => (mtime (fst a) <? mtime (fst b))%Z &&
                        negb (String.eqb (timestamp (fst a)) (timestamp (fst b)))) rest &&
      well_timed rest
  end.

Fixpoint all_chars (P : ascii -> bool) (s : string) : bool :=
  match s with
  | EmptyString => true
  | String c r => P c && all_chars P r
  end.

(** A device name that is one plain file-name component: not empty, not
    [.] or [..], without [/] or a NUL byte, without the characters
    [*], [?], [[] and []] that [glob] reads as pattern syntax, and short
    enough for the file names built from it (20 bytes longer) to stay
    within the 255 bytes of a file name.  These are the names the
    embedding of the sink speaks about: on such a name
    [self.path / name] is the name appended to the path, a file name
    built from it names an entry of the device directory, and the
    pattern [f"{name}_*.cfg"] matches the names that start with
    [name_] and end with [.cfg]. *)
Definition plain_char (c : ascii) : bool :=
  negb (Ascii.eqb c "/" || Ascii.eqb c "000" || Ascii.eqb c "*" || Ascii.eqb c "?" ||
        Ascii.eqb c "[" || Ascii.eqb c "]").

Definition plain_name (n : string) : bool :=
  negb (String.eqb n "") && negb (String.eqb n ".") && negb (String.eqb n "..") &&
  all_chars plain_char n && (String.length n <=? 235).

(** The timestamps are as [strftime('%Y%m%d_%H%M%S')] renders them:
    digits and the underscore. *)
Definition stamp_char (c : ascii) : bool :=
  ((48 <=? nat_of_ascii c) && (nat_of_ascii c <=? 57)) || Ascii.eqb c "_".

Definition strftime_stamps (snapshots : list (clock * string)) : bool :=
  forallb (fun s => negb (String.eqb (timestamp (fst s)) "") &&
                    all_chars stamp_char (timestamp (fst s))) snapshots.

(** The file a snapshot is stored as, and the alias pointing at it. *)
Definition file_entry (device_name : string) (s : clock * string) : string * node :=
  (backup_filename device_name (timestamp (fst s)), File (mtime (fst s)) (snd s)).

Definition link_entry (device_name : string) (s : clock * string) : string * node :=
  (latest_name device_name, Symlink (backup_filename device_name (timestamp (fst s)))).

(** The device directory holding the snapshots [kept], oldest first,
    and the alias to the newest. *)
Definition layout (device_name : string) (kept : list (clock * string)) : directory :=
  match last kept with
  | Some newest => map (file_entry device_name) kept ++ [link_entry device_name newest]
  | None => []
  end.

(** The history entry of a snapshot. *)
Definition backup_of (device_name : string) (s : clock * string) : Backup :=
  {| id := backup_filename device_name (timestamp (fst s));
     creation_time := mtime (fst s) |}.


End RotationVocabulary.

(* ================================================================== *)
(** * Vocabulary of the statements *)
(* ================================================================== *)

(** The state after further external calls [evs]. *)
Definition add_events (evs : list event) (w : world) : world :=
  {| plugin_manager := plugin_manager w; database := database w;
     last_run := last_run w; next_id := next_id w; trace := trace w ++ evs |}.

(** The device answers [outputs] to [commands] sent one after the other
    from history [h]. *)
Inductive answers (E : Env) (d : Device) : list event -> list string -> list string -> Prop :=
| answers_nil h : answers E d h [] []
| answers_cons h cmd out cmds outs :
    env_send_command E h d cmd = Return out ->
    answers E d (h ++ [EvSendCommand d cmd]) cmds outs ->
    answers E d h (cmd :: cmds) (out :: outs).

(** ** The snapshot format

    The text of a snapshot written out character by character, to
    compare with what [backup_device] builds: for each command, in
    order, the delimiter line [! Command: ] followed by the command,
    then the command's output and a line feed; and one more line feed
    between two such segments. *)
Definition LF : string := String "010"%char EmptyString.

Fixpoint snapshot_text (commands outputs : list string) : string :=
  match commands, outputs with
  | cmd :: commands', out :: outputs' =>
      "! Command: " +:+ cmd +:+ LF +:+ out +:+ LF +:+
      match commands', outputs' with
      | _ :: _, _ :: _ => LF +:+ snapshot_text commands' outputs'
      | _, _ => EmptyString
      end
  | _, _ => EmptyString
  end.

(** Every cached device model is an object of a concrete class, as every
    object [get_device_model] ever stored is. *)
Definition models_concrete (w : world) : Prop :=
  forall t m, _model_cache (plugin_manager w) !! t = Some m ->
              Models.is_abstract (model_cls m) = false.

Definition is_sink_write (ev : event) : bool :=
  match ev with EvSaveBackup _ _ _ => true | _ => false end.

Definition is_session_event (ev : event) : bool :=
  match ev with
  | EvConnect _ | EvSendCommand _ _ | EvDisconnect _ => true
  | _ => false
  end.

Definition is_sweep (ev : event) : bool :=
  match ev with EvRemoveStale _ => true | _ => false end.

(** The state after [get_device_model] built an object of class [c] for
    [device_type] and cached it. *)
Definition with_model (device_type : string) (c : model_class) (w : world) : world :=
  {| plugin_manager :=
       {| _input_cache := _input_cache (plugin_manager w);
          _output_cache := _output_cache (plugin_manager w);
          _model_cache := <[device_type := {| model_id := next_id w; model_cls := c |}]>
                            (_model_cache (plugin_manager w)) |};
     database := database w; last_run := last_run w;
     next_id := S (next_id w); trace := trace w |}.

(** A snapshot was obtained for [d] from state [w]: the model resolved
    and [backup_device] returned a configuration text. *)
Definition snapshot_obtained (E : Env) (d : Device) (w : world) (snapshot : string)
    (w' : world) : Prop :=
  exists m w1,
    PluginManagerImpl.get_device_model E (device_type d) w = (Return m, w1) /\
    BackupEngine.backup_device E d m w1 = (Return (Some snapshot), w').

(** A computation [c] relates every state to the state it leaves. *)
Definition keeps {A} (R : world -> world -> Prop) (c : M world A) : Prop :=
  forall w, R w (snd (c w)).

(** The database is as before. *)
Definition same_database (w w' : world) : Prop := database w' = database w.

(** The external calls made from [w] to [w'] all satisfy [P]. *)
Definition calls_only (P : event -> bool) (w w' : world) : Prop :=
  exists evs, trace w' = trace w ++ evs /\ forallb P evs = true.

(** Calls made while inventory sources and sinks are resolved and the
    inventory is read. *)
Definition is_setup_call (ev : event) : bool :=
  match ev with EvMkdir _ | EvGetDevices _ => true | _ => false end.

Definition not_sweep (ev : event) : bool := negb (is_sweep ev).

Definition not_sink_write (ev : event) : bool := negb (is_sink_write ev).

Definition not_session_event (ev : event) : bool := negb (is_session_event ev).

(** The state [run_backup] starts its [try] block from. *)
Definition stamped (E : Env) (w : world) : world :=
  set_last_run (env_now E (trace w)) w.

(** The device list a run obtains from its inventory sources, and the
    output modules it then resolves. *)
Definition devices_loaded (E : Env) (config : BackupScheduler.Config) (w : world)
    : list Device :=
  match fst (BackupScheduler.load_devices E (BackupScheduler.input config) [] (stamped E w)) with
  | Return devices => devices
  | Raise _ => []
  end.

Definition outputs_loaded (E : Env) (config : BackupScheduler.Config) (w : world)
    : list instance :=
  let w1 := snd (BackupScheduler.load_devices E (BackupScheduler.input config) []
                   (stamped E w)) in
  match fst (BackupScheduler.load_outputs E (BackupScheduler.output config) [] w1) with
  | Return output_modules => output_modules
  | Raise _ => []
  end.

Definition zero_results : BackupScheduler.results :=
  {| BackupScheduler.success := 0; BackupScheduler.failed := 0; BackupScheduler.total := 0 |}.

(** The state a run is in once its inventory sources are read, and once
    its output modules are resolved. *)
Definition after_load_devices (E : Env) (config : BackupScheduler.Config) (w : world) : world :=
  snd (BackupScheduler.load_devices E (BackupScheduler.input config) [] (stamped E w)).

Definition after_load_outputs (E : Env) (config : BackupScheduler.Config) (w : world) : world :=
  snd (BackupScheduler.load_outputs E (BackupScheduler.output config) []
         (after_load_devices E config w)).

(** The state in which the worker of a device starts: the workers of
    the devices [before] it in the device list have run. *)
Definition worker_start (E : Env) (config : BackupScheduler.Config) (w : world)
    (before : list Device) : world :=
  snd (BackupScheduler.submit_all E before (outputs_loaded E config w)
         (after_load_outputs E config w)).

(** The state a run is in once all its workers have run. *)
Definition after_workers (E : Env) (config : BackupScheduler.Config) (w : world) : world :=
  worker_start E config w (devices_loaded E config w).

(** What the workers return, device by device: the values the futures
    of [submit_all] hold. *)
Definition worker_names (E : Env) (devices : list Device) (output_modules : list instance)
    (w : world) : list (option string) :=
  match fst (BackupScheduler.submit_all E devices output_modules w) with
  | Return futures =>
      map (fun f => match f with Return n => n | Raise _ => None end) futures
  | Raise _ => []
  end.

Definition workers_of_run (E : Env) (config : BackupScheduler.Config) (w : world)
    : list (option string) :=
  worker_names E (devices_loaded E config w) (outputs_loaded E config w)
    (after_load_outputs E config w).

(** How many workers returned a truthy name, and how many did not. *)
Definition named (names : list (option string)) : nat :=
  length (List.filter truthy_str names).

Definition unnamed (names : list (option string)) : nat :=
  length (List.filter (fun n => negb (truthy_str n)) names).

(** The sinks of a configuration in configuration order: each entry is
    resolved through the registry in turn, from state [w] on, and an
    entry that does not resolve is left out. *)
Fixpoint sinks_in_order (E : Env) (dests : list BackupScheduler.entry) (w : world)
    : list instance :=
  match dests with
  | [] => []
  | dest :: rest =>
      match PluginManagerImpl.load_output_module E (BackupScheduler.entry_type dest)
              (BackupScheduler.entry_config dest) w with
      | (Return sink, w') => sink :: sinks_in_order E rest w'
      | (Raise _, w') => sinks_in_order E rest w'
      end
  end.

(** The registry is as before. *)
Definition same_registry (w w' : world) : Prop := plugin_manager w' = plugin_manager w.

(** The cache of device models is as before. *)
Definition same_models (w w' : world) : Prop :=
  _model_cache (plugin_manager w') = _model_cache (plugin_manager w).


(** The entry a device list holds last under a name. *)
Fixpoint last_named (n : string) (devices : list Device) : option Device :=
  match devices with
  | [] => None
  | d :: rest =>
      match last_named n rest with
      | Some d' => Some d'
      | None => if String.eqb (name d) n then Some d else None
      end
  end.

(** A row without its [last_backup]. *)
Definition forget_last_backup (r : row) : string * string * string * Z :=
  (row_name r, row_host r, row_device_type r, row_created_at r).

(** The calls one [upsert_devices(devices)] makes to SQLite. *)
Definition upsert_calls (devices : list Device) : list event :=
  EvUpsert devices :: map EvInsert devices ++ [EvCommit].

(** SQLite answers each of the calls [calls], made one after the other
    from history [h], without an error. *)
Fixpoint sqlite_works (E : Env) (h : list event) (calls : list event) : bool :=
  match calls with
  | [] => true
  | ev :: rest =>
      match env_sqlite E h with
      | Return _ => sqlite_works E (h ++ [ev]) rest
      | Raise _ => false
      end
  end.

(** The clock of the environment never goes back. *)
Definition clock_never_goes_back (E : Env) : Prop :=
  forall h ev, (env_now E h <= env_now E (h ++ [ev]))%Z.

(** The devices of one [upsert_devices] call, each with the time its
    statement runs at, the first statement running after history [h]. *)
Fixpoint stamp_each (E : Env) (h : list event) (devices : list Device) : list (Z * Device) :=
  match devices with
  | [] => []
  | d :: rest => (env_now E h, d) :: stamp_each E (h ++ [EvInsert d]) rest
  end.

(** The table after the statements [stamped] ran in order. *)
Definition upsert_all (stamped : list (Z * Device)) (table : list row) : list row :=
  fold_left (fun t x => DeviceDatabase.upsert (fst x) (snd x) t) stamped table.

(** The statement that ran last for a name. *)
Fixpoint last_stamped (n : string) (stamped : list (Z * Device)) : option (Z * Device) :=
  match stamped with
  | [] => None
  | x :: rest =>
      match last_stamped n rest with
      | Some y => Some y
      | None => if String.eqb (name (snd x)) n then Some x else None
      end
  end.

(** What the statements [stamped] make of a row already in the table. *)
Definition refresh (stamped : list (Z * Device)) (r : row) : row :=
  match last_stamped (row_name r) stamped with
  | Some (now, d) => {| row_name := row_name r; row_host := host d;
                        row_device_type := device_type d;
                        row_last_backup := now; row_created_at := row_created_at r |}
  | None => r
  end.

(** Every row of the device cache is still there, under its name. *)
Definition rows_persist (w w' : world) : Prop :=
  forall r, In r (database w) ->
            exists r', In r' (database w') /\ row_name r' = row_name r.

(** Stage one: a module named exactly [device_type] exposing an
    instantiable class of the derived name. *)
Definition direct_match (E : Env) (device_type : string) : bool :=
  match PluginManagerImpl.assoc device_type Models.models_dir with
  | Some module =>
      match PluginManagerImpl.assoc (PluginManagerImpl.class_name_of E device_type) module with
      | Some c => negb (Models.is_abstract c)
      | None => false
      end
  | None => false
  end.

(** Stage two: some model module exposing an instantiable class of the
    derived name. *)
Definition alias_match (E : Env) (device_type : string) : bool :=
  existsb (fun file =>
             negb (startswith "_" (fst file)) &&
             match PluginManagerImpl.assoc (PluginManagerImpl.class_name_of E device_type)
                     (snd file) with
             | Some c => negb (Models.is_abstract c)
             | None => false
             end)
          Models.models_dir.


(* ================================================================== *)
(** * Sample data *)
(* ================================================================== *)

Module Samples.

(** An environment in which every external call succeeds: the inventory
    holds one IOS switch, a device echoes the command it is sent.  No
    text of the samples goes beyond ASCII, so the case tables beyond it
    are never consulted. *)
Definition sw1 : Device :=
  {| name := "sw1"; host := "10.0.0.1"; device_type := "cisco_ios";
     username := Some "admin"; password := Some "secret"; last_backup := None |}.

Definition quiet_env : Env :=
  {| env_mkdir := fun _ _ => Return tt;
     env_get_devices := fun _ _ => Return [sw1];
     env_connect := fun _ _ => Return tt;
     env_send_command := fun _ _ cmd => Return cmd;
     env_save_backup := fun _ _ _ _ => Return tt;
     env_sqlite := fun _ => Return tt;
     env_now := fun _ => 1000000%Z;
     env_capitalize := fun s => s |}.

Definition netbox_config : cfg :=
  <["url" := PStr "https://netbox.example"]> (<["token" := PStr "abc"]> ∅).

Definition other_netbox_config : cfg :=
  <["url" := PStr "https://other.example"]> (<["token" := PStr "xyz"]> ∅).

Definition filesystem_config : cfg :=
  <["path" := PStr "/var/backups/network"]> (<["retention" := PInt 2]> ∅).

Definition other_filesystem_config : cfg :=
  <["path" := PStr "/srv/backups"]> ∅.

(** A scheduler configured with one NetBox source and one filesystem
    sink, whose device cache holds a router last refreshed at time 0,
    more than eleven days before the environment's clock. *)
Definition sample_config : BackupScheduler.Config :=
  {| BackupScheduler.input :=
       [ {| BackupScheduler.entry_type := "netbox";
            BackupScheduler.entry_config := netbox_config |} ];
     BackupScheduler.output :=
       [ {| BackupScheduler.entry_type := "filesystem";
            BackupScheduler.entry_config := filesystem_config |} ];
     BackupScheduler.max_workers := 4 |}.

Definition stale_row : row :=
  {| row_name := "old-router"; row_host := "10.0.0.9"; row_device_type := "cisco_ios";
     row_last_backup := 0; row_created_at := 0 |}.

Definition stale_world : world :=
  {| plugin_manager := plugin_manager initial_world; database := [stale_row];
     last_run := None; next_id := 0; trace := [] |}.

(** The same environment with an inventory that lists no device. *)
Definition empty_inventory_env : Env :=
  {| env_mkdir := fun _ _ => Return tt;
     env_get_devices := fun _ _ => Return [];
     env_connect := fun _ _ => Return tt;
     env_send_command := fun _ _ cmd => Return cmd;
     env_save_backup := fun _ _ _ _ => Return tt;
     env_sqlite := fun _ => Return tt;
     env_now := fun _ => 1000000%Z;
     env_capitalize := fun s => s |}.

(** An environment in which every sink write fails. *)
Definition failing_sinks_env : Env :=
  {| env_mkdir := fun _ _ => Return tt;
     env_get_devices := fun _ _ => Return [sw1];
     env_connect := fun _ _ => Return tt;
     env_send_command := fun _ _ cmd => Return cmd;
     env_save_backup := fun _ _ _ _ => Raise OSError;
     env_sqlite := fun _ => Return tt;
     env_now := fun _ => 1000000%Z;
     env_capitalize := fun s => s |}.

(** An environment in which devices time out on [show running-config]. *)
Definition flaky_env : Env :=
  {| env_mkdir := fun _ _ => Return tt;
     env_get_devices := fun _ _ => Return [sw1];
     env_connect := fun _ _ => Return tt;
     env_send_command := fun _ _ cmd =>
       if String.eqb cmd "show running-config" then Raise ReadTimeout else Return cmd;
     env_save_backup := fun _ _ _ _ => Return tt;
     env_sqlite := fun _ => Return tt;
     env_now := fun _ => 1000000%Z;
     env_capitalize := fun s => s |}.



(** An environment whose clock advances by one second with every
    external call, and in which no device can be reached. *)
Definition ticking_env : Env :=
  {| env_mkdir := fun _ _ => Return tt;
     env_get_devices := fun _ _ => Return [sw1];
     env_connect := fun _ _ => Raise NetMikoTimeoutException;
     env_send_command := fun _ _ cmd => Return cmd;
     env_save_backup := fun _ _ _ _ => Return tt;
     env_sqlite := fun _ => Return tt;
     env_now := fun h => (1000000 + Z.of_nat (length h))%Z;
     env_capitalize := fun s => s |}.




(** A device without a name, and an inventory that lists it. *)
Definition nameless : Device :=
  {| name := ""; host := "10.0.0.7"; device_type := "cisco_ios";
     username := Some "admin"; password := Some "secret"; last_backup := None |}.

Definition nameless_inventory_env : Env :=
  {| env_mkdir := fun _ _ => Return tt;
     env_get_devices := fun _ _ => Return [nameless];
     env_connect := fun _ _ => Return tt;
     env_send_command := fun _ _ cmd => Return cmd;
     env_save_backup := fun _ _ _ _ => Return tt;
     env_sqlite := fun _ => Return tt;
     env_now := fun _ => 1000000%Z;
     env_capitalize := fun s => s |}.

Definition no_output_config : BackupScheduler.Config :=
  {| BackupScheduler.input := BackupScheduler.input sample_config;
     BackupScheduler.output := [];
     BackupScheduler.max_workers := 4 |}.

(** Two filesystem sinks configured with different paths. *)
Definition two_sinks_config : BackupScheduler.Config :=
  {| BackupScheduler.input := BackupScheduler.input sample_config;
     BackupScheduler.output :=
       [ {| BackupScheduler.entry_type := "filesystem";
            BackupScheduler.entry_config := filesystem_config |};
         {| BackupScheduler.entry_type := "filesystem";
            BackupScheduler.entry_config := other_filesystem_config |} ];
     BackupScheduler.max_workers := 4 |}.

Definition zero_workers_config : BackupScheduler.Config :=
  {| BackupScheduler.input := BackupScheduler.input sample_config;
     BackupScheduler.output := BackupScheduler.output sample_config;
     BackupScheduler.max_workers := 0 |}.

Definition ios_model : model := {| model_id := 0; model_cls := CiscoIos |}.

(** The snapshot of an IOS device that echoes the commands it is sent. *)
Definition echo_snapshot : string :=
  "! Command: show version" +:+ LF +:+ "show version" +:+ LF +:+ LF +:+
  "! Command: show running-config" +:+ LF +:+ "show running-config" +:+ LF.

Definition sink_a : instance :=
  {| inst_id := 7; inst_class := "Filesystem"; inst_config := filesystem_config |}.

Definition sink_b : instance :=
  {| inst_id := 8; inst_class := "Filesystem"; inst_config := other_filesystem_config |}.

Definition sw2 : Device :=
  {| name := "sw2"; host := "10.0.0.2"; device_type := "cisco_nxos";
     username := None; password := None; last_backup := None |}.

(** A filesystem sink keeping two snapshots per device, one keeping
    none, and three snapshots taken one second apart. *)
Definition keep_two : FilesystemOutput.Filesystem :=
  {| FilesystemOutput.path := "/var/backups/network";
     FilesystemOutput.retention := PInt 2;
     FilesystemOutput.organize_by := PStr "device" |}.

Definition keep_none : FilesystemOutput.Filesystem :=
  {| FilesystemOutput.path := "/var/backups/network";
     FilesystemOutput.retention := PInt 0;
     FilesystemOutput.organize_by := PStr "device" |}.

Definition at_second (stamp : string) (t : Z) : FilesystemOutput.clock :=
  {| FilesystemOutput.date_str := "2024-01-01";
     FilesystemOutput.timestamp := stamp;
     FilesystemOutput.mtime := t |}.

Definition three_snapshots : list (FilesystemOutput.clock * string) :=
  [ (at_second "20240101_000001" 1, "config at t1");
    (at_second "20240101_000002" 2, "config at t2");
    (at_second "20240101_000003" 3, "config at t3") ].

(** Three snapshots written within one second, and two written on
    consecutive days to a sink organised by date that keeps one. *)
Definition same_second_snapshots : list (FilesystemOutput.clock * string) :=
  [ (at_second "20240101_000001" 1, "first");
    (at_second "20240101_000001" 2, "second");
    (at_second "20240101_000001" 3, "third") ].

Definition keep_one_by_date : FilesystemOutput.Filesystem :=
  {| FilesystemOutput.path := "/var/backups/network";
     FilesystemOutput.retention := PInt 1;
     FilesystemOutput.organize_by := PStr "date" |}.

Definition two_day_snapshots : list (FilesystemOutput.clock * string) :=
  [ ({| FilesystemOutput.date_str := "2024-01-01";
        FilesystemOutput.timestamp := "20240101_000001";
        FilesystemOutput.mtime := 1 |}, "day one");
    ({| FilesystemOutput.date_str := "2024-01-02";
        FilesystemOutput.timestamp := "20240102_000001";
        FilesystemOutput.mtime := 86401 |}, "day two") ].

End Samples.

(* ================================================================== *)
(** * Facts about strings *)
(* ================================================================== *)

Module StringFacts.

Lemma append_nil (b : string) : "" +:+ b = b.
Proof. reflexivity. Qed.

Lemma append_cons (x : ascii) (a b : string) : String x a +:+ b = String x (a +:+ b).
Proof. reflexivity. Qed.

Lemma length_append (a b : string) :
  String.length (a +:+ b) = String.length a + String.length b.
Proof.
  induction a as [| c a IH]; [reflexivity |].
  rewrite append_cons. cbn [String.length]. now rewrite IH.
Qed.

Lemma append_assoc (a b c : string) : (a +:+ b) +:+ c = a +:+ (b +:+ c).
Proof.
  induction a as [| x a IH]; [reflexivity |].
  rewrite !append_cons. now rewrite IH.
Qed.

Lemma append_inj_r (a b t : string) : a +:+ t = b +:+ t -> a = b.
Proof.
  revert b. induction a as [| x a IH]; intros [| y b] Heq.
  - reflexivity.
  - exfalso. apply (f_equal String.length) in Heq.
    rewrite !length_append in Heq. cbn [String.length] in Heq. lia.
  - exfalso. apply (f_equal String.length) in Heq.
    rewrite !length_append in Heq. cbn [String.length] in Heq. lia.
  - rewrite !append_cons in Heq. injection Heq as -> Heq. f_equal. now apply IH.
Qed.

Lemma append_inj_l (p a b : string) : p +:+ a = p +:+ b -> a = b.
Proof.
  induction p as [| x p IH]; [auto |].
  rewrite !append_cons. intros [= Heq]. auto.
Qed.

Lemma prefix_append (p r : string) : String.prefix p (p +:+ r) = true.
Proof.
  induction p as [| x p IH].
  - rewrite append_nil. now destruct r.
  - rewrite append_cons. cbn [String.prefix].
    destruct (ascii_dec x x); [exact IH | contradiction].
Qed.

Lemma substring_append (a t : string) :
  String.substring (String.length a) (String.length t) (a +:+ t) = t.
Proof.
  induction a as [| x a IH].
  - rewrite append_nil. cbn [String.length].
    induction t as [| y t IHt]; cbn [String.length String.substring];
      [reflexivity | now rewrite IHt].
  - rewrite append_cons. cbn [String.length String.substring]. exact IH.
Qed.

Lemma endswith_append (a t : string) : endswith t (a +:+ t) = true.
Proof.
  unfold endswith. rewrite length_append.
  replace (String.length a + String.length t - String.length t) with (String.length a) by lia.
  rewrite substring_append, String.eqb_refl.
  apply andb_true_iff. split; [apply Nat.leb_le; lia | reflexivity].
Qed.

Lemma append_empty_r (a : string) : a +:+ "" = a.
Proof.
  induction a as [| x a IH]; [reflexivity |].
  rewrite append_cons. now rewrite IH.
Qed.

End StringFacts.

(* ================================================================== *)
(** * Properties of the capability registry *)
(* ================================================================== *)

Module PluginManagerSpec.
Import PluginManagerImpl.

(** A cached inventory source is returned as it is, whatever the
    configuration passed. *)
Lemma load_input_module_hit (E : Env) (t : string) (c : cfg) (w : world) (inst : instance) :
  _input_cache (plugin_manager w) !! t = Some inst ->
  load_input_module E t c w = (Return inst, w).
Proof.
  intros Hhit. unfold load_input_module, bind, get. cbn. now rewrite Hhit.
Qed.

Lemma load_output_module_hit (E : Env) (t : string) (c : cfg) (w : world) (inst : instance) :
  _output_cache (plugin_manager w) !! t = Some inst ->
  load_output_module E t c w = (Return inst, w).
Proof.
  intros Hhit. unfold load_output_module, bind, get. cbn. now rewrite Hhit.
Qed.

(** What a constructor returns carries the configuration it was given. *)
Lemma construct_config (E : Env) (k : module_class) (c : cfg) (w w' : world) (inst : instance) :
  construct E k c w = (Return inst, w') -> inst_config inst = c.
Proof.
  destruct k; cbn; try discriminate.
  - destruct (negb _ || negb _); cbn; [discriminate |].
    intros [= <- _]. reflexivity.
  - destruct (dict_get c "path" _); cbn; try discriminate.
    unfold bind, external. destruct (env_mkdir E (trace w) s); cbn; [| discriminate].
    intros [= <- _]. reflexivity.
Qed.

(** A successful load leaves the instance in the cache under its type
    name; on a miss the instance is the one just built from [c]. *)
Lemma load_input_module_caches (E : Env) (t : string) (c : cfg) (w w' : world) (inst : instance) :
  load_input_module E t c w = (Return inst, w') ->
  _input_cache (plugin_manager w') !! t = Some inst /\
  (_input_cache (plugin_manager w) !! t = None -> inst_config inst = c).
Proof.
  unfold load_input_module, bind, get. cbn.
  destruct (_input_cache (plugin_manager w) !! t) as [cached |] eqn:Hc.
  - cbn. intros [= <- <-]. split; [assumption | discriminate].
  - unfold try_except, bind, lift.
    destruct (import_module input_dir t) as [ns | e]; cbn; [| discriminate].
    destruct (getattr ns (class_name_of E t)) as [k | e]; cbn; [| discriminate].
    destruct (construct E k c w) as [[i | e] w1] eqn:Hk; cbn; [| discriminate].
    intros [= <- <-]. cbn. split.
    + apply lookup_insert_eq.
    + intros _. eapply construct_config; eassumption.
Qed.

Lemma load_output_module_caches (E : Env) (t : string) (c : cfg) (w w' : world) (inst : instance) :
  load_output_module E t c w = (Return inst, w') ->
  _output_cache (plugin_manager w') !! t = Some inst /\
  (_output_cache (plugin_manager w) !! t = None -> inst_config inst = c).
Proof.
  unfold load_output_module, bind, get. cbn.
  destruct (_output_cache (plugin_manager w) !! t) as [cached |] eqn:Hc.
  - cbn. intros [= <- <-]. split; [assumption | discriminate].
  - unfold try_except, bind, lift.
    destruct (import_module output_dir t) as [ns | e]; cbn; [| discriminate].
    destruct (getattr ns (class_name_of E t)) as [k | e]; cbn; [| discriminate].
    destruct (construct E k c w) as [[i | e] w1] eqn:Hk; cbn; [| discriminate].
    intros [= <- <-]. cbn. split.
    + apply lookup_insert_eq.
    + intros _. eapply construct_config; eassumption.
Qed.

(** C5. Construction once: when resolving an inventory-source (or
    storage-sink) type name returned an instance, resolving the same
    type name again returns that very instance, identity and
    configuration included, and changes nothing, whatever configuration
    [c2] the second call passes; if the first call was a cache miss the
    instance carries the first call's configuration [c1]. *)
Theorem load_module_construction_once (E : Env) (t : string) (c1 c2 : cfg)
    (w w' : world) (inst : instance) :
  (load_input_module E t c1 w = (Return inst, w') ->
     load_input_module E t c2 w' = (Return inst, w') /\
     (_input_cache (plugin_manager w) !! t = None -> inst_config inst = c1)) /\
  (load_output_module E t c1 w = (Return inst, w') ->
     load_output_module E t c2 w' = (Return inst, w') /\
     (_output_cache (plugin_manager w) !! t = None -> inst_config inst = c1)).
Proof.
  split; intros Hfirst.
  - apply load_input_module_caches in Hfirst as [Hhit Hcfg].
    split; [now apply load_input_module_hit | exact Hcfg].
  - apply load_output_module_caches in Hfirst as [Hhit Hcfg].
    split; [now apply load_output_module_hit | exact Hcfg].
Qed.

End PluginManagerSpec.

Module DeviceModelSpec.
Import PluginManagerImpl.

(** One model file that holds no instantiable class of that name is
    passed over, and the state is as before. *)
Lemma scan_models_miss (cn t : string) (files : list (string * list (string * model_class)))
    (w : world) :
  existsb (fun file =>
             negb (startswith "_" (fst file)) &&
             match assoc cn (snd file) with
             | Some c => negb (Models.is_abstract c)
             | None => false
             end) files = false ->
  scan_models cn t files w = (Return None, w).
Proof.
  induction files as [| [stem module] rest IH]; cbn; intros Hnone.
  - reflexivity.
  - apply orb_false_elim in Hnone as [Hhere Hrest].
    unfold startswith in *. destruct (String.prefix "_" stem); cbn [negb andb] in Hhere |- *.
    + now apply IH.
    + unfold bind, try_except, hasattr, getattr, lift.
      destruct (assoc cn module) as [c |]; cbn.
      * unfold instantiate_model. apply negb_false_iff in Hhere. rewrite Hhere. cbn.
        now apply IH.
      * now apply IH.
Qed.

(** A device type matching neither stage is refused, the registry left
    as it was. *)
Lemma get_device_model_unknown (E : Env) (t : string) (w : world) :
  _model_cache (plugin_manager w) !! t = None ->
  direct_match E t = false ->
  alias_match E t = false ->
  get_device_model E t w = (Raise (no_model_found t (class_name_of E t)), w).
Proof.
  intros Hmiss Hdirect Halias.
  unfold get_device_model, bind, get. cbn -[scan_models Models.models_dir].
  rewrite Hmiss.
  unfold direct_match in Hdirect. unfold try_except, bind, lift, import_module.
  destruct (assoc t Models.models_dir) as [module |];
    cbn -[scan_models Models.models_dir].
  - unfold getattr. destruct (assoc (class_name_of E t) module) as [c |]; cbn.
    + unfold instantiate_model. apply negb_false_iff in Hdirect. rewrite Hdirect.
      reflexivity.
    + reflexivity.
  - rewrite (scan_models_miss _ _ _ _ Halias). reflexivity.
Qed.

(** C6. No model module is named [cisco_xe]; with neither type cached,
    ["cisco_xe"] resolves through the scan of the model files to the
    class [CiscoXe] found in cisco_ios.py, ["cisco_ios"] then resolves
    directly, and both models declare the same command list; and a
    device type [t] matching neither stage raises the resolution error,
    leaving the registry unchanged.  This holds whatever the case
    tables beyond ASCII are, so for every device type. *)
Theorem cisco_xe_resolves_by_alias (E : Env) (w : world) (t : string) :
  _model_cache (plugin_manager w) !! "cisco_xe" = None ->
  _model_cache (plugin_manager w) !! "cisco_ios" = None ->
  import_module Models.models_dir "cisco_xe" = Raise ModuleNotFoundError /\
  direct_match E "cisco_xe" = false /\
  (exists xe ios w1 w2,
      get_device_model E "cisco_xe" w = (Return xe, w1) /\
      get_device_model E "cisco_ios" w1 = (Return ios, w2) /\
      model_cls xe = CiscoXe /\ model_cls ios = CiscoIos /\
      Models.get_commands xe = Models.get_commands ios /\
      Models.get_commands xe = ["show version"; "show running-config"]) /\
  (_model_cache (plugin_manager w) !! t = None ->
   direct_match E t = false -> alias_match E t = false ->
   get_device_model E t w = (Raise (no_model_found t (class_name_of E t)), w)).
Proof.
  intros Hxe Hios. split; [reflexivity |]. split; [reflexivity |]. split.
  - eexists _, _, _, _. split.
    + unfold get_device_model, bind, get. cbn. rewrite Hxe. cbn. reflexivity.
    + split.
      * unfold get_device_model, bind, get. cbn.
        rewrite lookup_insert_ne by discriminate. rewrite Hios. cbn. reflexivity.
      * repeat split.
  - apply get_device_model_unknown.
Qed.

(** The theorem at the state of a fresh scheduler, with the unknown
    device type ["junos"]. *)
Lemma cisco_xe_resolves_by_alias_witness :
  (exists xe ios w1 w2,
      get_device_model Samples.quiet_env "cisco_xe" initial_world = (Return xe, w1) /\
      get_device_model Samples.quiet_env "cisco_ios" w1 = (Return ios, w2) /\
      model_cls xe = CiscoXe /\ model_cls ios = CiscoIos /\
      Models.get_commands xe = Models.get_commands ios /\
      Models.get_commands xe = ["show version"; "show running-config"]) /\
  get_device_model Samples.quiet_env "junos" initial_world =
    (Raise (no_model_found "junos" (class_name_of Samples.quiet_env "junos")), initial_world).
Proof.
  destruct (cisco_xe_resolves_by_alias Samples.quiet_env initial_world "junos")
    as (_ & _ & Hres & Hunknown).
  - reflexivity.
  - reflexivity.
  - split; [exact Hres |]. apply Hunknown; reflexivity.
Defined.

End DeviceModelSpec.

(* ================================================================== *)
(** * Properties of the backup pipeline *)
(* ================================================================== *)

Module PipelineSpec.
Import PluginManagerImpl BackupEngine BackupScheduler.

Lemma add_events_nil (w : world) : add_events [] w = w.
Proof. destruct w. unfold add_events. cbn. now rewrite app_nil_r. Qed.

Lemma add_events_app (a b : list event) (w : world) :
  add_events b (add_events a w) = add_events (a ++ b) w.
Proof. unfold add_events. cbn. now rewrite app_assoc. Qed.

Lemma record_event_add (ev : event) (w : world) : record_event ev w = add_events [ev] w.
Proof. reflexivity. Qed.

(** The command loop on a device that answers every command. *)
Lemma send_commands_ok (E : Env) (d : Device) (cmds outs acc : list string) (w : world) :
  answers E d (trace w) cmds outs ->
  send_commands E d cmds acc w =
    (Return (acc ++ zip_with segment cmds outs),
     add_events (map (EvSendCommand d) cmds) w).
Proof.
  revert outs acc w. induction cmds as [| cmd cmds IH]; intros outs acc w Hans.
  - inversion Hans; subst. cbn. now rewrite app_nil_r, add_events_nil.
  - inversion Hans as [| h c out cs os Hout Hrest]; subst. cbn.
    unfold bind, external. rewrite Hout. rewrite record_event_add.
    rewrite (IH os); [| exact Hrest].
    rewrite add_events_app, <- app_assoc. reflexivity.
Qed.

(** The command loop stops at the first command the device fails. *)
Lemma send_commands_abort (E : Env) (d : Device) (cmds outs acc : list string) (w : world)
    (i : nat) (c : string) (e : exn) :
  cmds !! i = Some c ->
  answers E d (trace w) (take i cmds) outs ->
  env_send_command E (trace w ++ map (EvSendCommand d) (take i cmds)) d c = Raise e ->
  send_commands E d cmds acc w =
    (Raise e, add_events (map (EvSendCommand d) (take (S i) cmds)) w).
Proof.
  revert outs acc w i. induction cmds as [| cmd cmds IH]; intros outs acc w i Hi Hans Hfail.
  - discriminate.
  - destruct i as [| i]; cbn in Hi, Hans, Hfail.
    + injection Hi as ->. rewrite app_nil_r in Hfail.
      cbn. unfold bind, external. rewrite Hfail. reflexivity.
    + inversion Hans as [| h c0 out cs os Hout Hrest]; subst.
      cbn. unfold bind, external. rewrite Hout. rewrite record_event_add.
      rewrite (IH os _ _ i Hi).
      * now rewrite add_events_app.
      * exact Hrest.
      * cbn. rewrite <- app_assoc. exact Hfail.
Qed.

(** Either every command is answered, or some first command fails. *)
Lemma send_commands_cases (E : Env) (d : Device) (cmds : list string) (h : list event) :
  (exists outs, answers E d h cmds outs) \/
  (exists i c e outs, cmds !! i = Some c /\ answers E d h (take i cmds) outs /\
                      env_send_command E (h ++ map (EvSendCommand d) (take i cmds)) d c = Raise e).
Proof.
  revert h. induction cmds as [| cmd cmds IH]; intros h.
  - left. exists []. constructor.
  - destruct (env_send_command E h d cmd) as [out | e] eqn:Hout.
    + destruct (IH (h ++ [EvSendCommand d cmd])) as [[outs Hans] | (i & c & e & outs & Hi & Hans & Hfail)].
      * left. exists (out :: outs). now constructor.
      * right. exists (S i), c, e, (out :: outs). cbn. split; [exact Hi |]. split.
        -- now constructor.
        -- rewrite <- app_assoc in Hfail. exact Hfail.
    + right. exists 0, cmd, e, []. cbn. split; [reflexivity |]. split; [constructor |].
      now rewrite app_nil_r.
Qed.

(** [backup_device] never raises. *)
Lemma backup_device_total (E : Env) (d : Device) (m : model) (w : world) :
  exists r w', backup_device E d m w = (Return r, w').
Proof.
  unfold backup_device, try_except.
  destruct (with_ConnectHandler E d _ w) as [[r | e] w'].
  - eauto.
  - destruct e; cbn; eauto.
Qed.

(** The outcome of [backup_device] once the session is open and every
    command answered. *)
Lemma backup_device_ok (E : Env) (d : Device) (m : model) (w : world) (outs : list string) :
  env_connect E (trace w) d = Return tt ->
  answers E d (trace w ++ [EvConnect d]) (Models.get_commands m) outs ->
  backup_device E d m w =
    (Return (Some (Models.process_config m
                     (join nl (zip_with segment (Models.get_commands m) outs)))),
     add_events ([EvConnect d] ++ map (EvSendCommand d) (Models.get_commands m)
                 ++ [EvDisconnect d]) w).
Proof.
  intros Hconn Hans.
  unfold backup_device, try_except, with_ConnectHandler, bind, external.
  rewrite Hconn. rewrite record_event_add.
  rewrite (send_commands_ok E d _ outs); [| exact Hans].
  cbn [ret app]. rewrite record_event_add, !add_events_app. reflexivity.
Qed.

(** The outcome of [backup_device] when command number [i] fails. *)
Lemma backup_device_abort (E : Env) (d : Device) (m : model) (w : world)
    (i : nat) (c : string) (e : exn) (outs : list string) :
  env_connect E (trace w) d = Return tt ->
  Models.get_commands m !! i = Some c ->
  answers E d (trace w ++ [EvConnect d]) (take i (Models.get_commands m)) outs ->
  env_send_command E ((trace w ++ [EvConnect d]) ++
                      map (EvSendCommand d) (take i (Models.get_commands m))) d c = Raise e ->
  backup_device E d m w =
    (Return None,
     add_events ([EvConnect d] ++ map (EvSendCommand d) (take (S i) (Models.get_commands m))
                 ++ [EvDisconnect d]) w).
Proof.
  intros Hconn Hi Hans Hfail.
  unfold backup_device, try_except, with_ConnectHandler, bind, external.
  rewrite Hconn. rewrite record_event_add.
  rewrite (send_commands_abort E d _ outs [] (add_events [EvConnect d] w) i c e Hi Hans Hfail).
  rewrite record_event_add, !add_events_app.
  destruct e; reflexivity.
Qed.

(** When the session cannot be opened nothing is sent. *)
Lemma backup_device_no_session (E : Env) (d : Device) (m : model) (w : world) (e : exn) :
  env_connect E (trace w) d = Raise e ->
  backup_device E d m w = (Return None, add_events [EvConnect d] w).
Proof.
  intros Hconn. unfold backup_device, try_except, with_ConnectHandler, bind, external.
  rewrite Hconn. destruct e; reflexivity.
Qed.

(** What a returned snapshot is made of. *)
Lemma backup_device_inv (E : Env) (d : Device) (m : model) (w w' : world) (snapshot : string) :
  backup_device E d m w = (Return (Some snapshot), w') ->
  exists outs,
    answers E d (trace w ++ [EvConnect d]) (Models.get_commands m) outs /\
    snapshot = Models.process_config m
                 (join nl (zip_with segment (Models.get_commands m) outs)) /\
    trace w' = trace w ++ [EvConnect d]
                 ++ map (EvSendCommand d) (Models.get_commands m) ++ [EvDisconnect d].
Proof.
  intros Hrun.
  destruct (env_connect E (trace w) d) as [[] | e] eqn:Hconn.
  - destruct (send_commands_cases E d (Models.get_commands m) (trace w ++ [EvConnect d]))
      as [[outs Hans] | (i & c & e & outs & Hi & Hans & Hfail)].
    + rewrite (backup_device_ok E d m w outs Hconn Hans) in Hrun.
      injection Hrun as <- <-. exists outs. repeat split; assumption.
    + rewrite (backup_device_abort E d m w i c e outs Hconn Hi Hans Hfail) in Hrun.
      discriminate.
  - rewrite (backup_device_no_session E d m w e Hconn) in Hrun. discriminate.
Qed.

(** The segments the engine builds and joins are the snapshot format. *)
Lemma join_segments (cmds outs : list string) :
  length outs = length cmds ->
  join nl (zip_with segment cmds outs) = snapshot_text cmds outs.
Proof.
  revert outs. induction cmds as [| cmd cmds IH]; intros [| out outs] Hlen;
    try discriminate; [reflexivity |].
  cbn in Hlen. injection Hlen as Hlen. specialize (IH outs Hlen).
  cbn [zip_with snapshot_text]. unfold join in *.
  destruct cmds as [| cmd' cmds]; destruct outs as [| out' outs]; try discriminate.
  - reflexivity.
  - change (zip_with segment (cmd' :: cmds) (out' :: outs))
      with (segment cmd' out' :: zip_with segment cmds outs) in *.
    cbn [String.concat]. cbn [String.concat] in IH.
    change (match zip_with segment cmds outs with
            | [] => segment cmd' out'
            | _ :: _ => segment cmd' out' +:+ nl +:+
                        String.concat nl (zip_with segment cmds outs)
            end) with (String.concat nl (segment cmd' out' :: zip_with segment cmds outs))
      in IH |- *.
    rewrite IH. unfold segment, nl, LF. now rewrite !StringFacts.append_assoc.
Qed.

Lemma answers_length (E : Env) (d : Device) (h : list event) (cmds outs : list string) :
  answers E d h cmds outs -> length outs = length cmds.
Proof. induction 1; cbn; congruence. Qed.

(** C8. A snapshot [backup_device] returns is the model's
    [process_config] applied to the text made of one segment per
    command of [get_commands], in that order: the delimiter line
    ["! Command: <cmd>"], a line feed, the device's answer to that
    command and a line feed, with one more line feed between two
    segments; the answers are the device's to exactly those commands,
    sent in that order in one session.  And when the session is open
    and command number [i] is the first to fail, no later command is
    sent, the session is closed and the result is [None]. *)
Theorem backup_device_snapshot (E : Env) (d : Device) (m : model) (w : world) :
  (forall snapshot w',
      backup_device E d m w = (Return (Some snapshot), w') ->
      exists outs,
        answers E d (trace w ++ [EvConnect d]) (Models.get_commands m) outs /\
        snapshot = Models.process_config m (snapshot_text (Models.get_commands m) outs) /\
        trace w' = trace w ++ [EvConnect d]
                     ++ map (EvSendCommand d) (Models.get_commands m) ++ [EvDisconnect d]) /\
  (forall i c e outs,
      env_connect E (trace w) d = Return tt ->
      Models.get_commands m !! i = Some c ->
      answers E d (trace w ++ [EvConnect d]) (take i (Models.get_commands m)) outs ->
      env_send_command E ((trace w ++ [EvConnect d]) ++
                          map (EvSendCommand d) (take i (Models.get_commands m))) d c = Raise e ->
      exists w',
        backup_device E d m w = (Return None, w') /\
        trace w' = trace w ++ [EvConnect d]
                     ++ map (EvSendCommand d) (take (S i) (Models.get_commands m))
                     ++ [EvDisconnect d]).
Proof.
  split.
  - intros snapshot w' Hrun.
    destruct (backup_device_inv E d m w w' snapshot Hrun) as (outs & Hans & Hsnap & Htrace).
    exists outs. split; [exact Hans |]. split; [| exact Htrace].
    rewrite Hsnap, join_segments; [reflexivity |].
    eapply answers_length; eassumption.
  - intros i c e outs Hconn Hi Hans Hfail.
    eexists. split.
    + apply (backup_device_abort E d m w i c e outs Hconn Hi Hans Hfail).
    + reflexivity.
Qed.

End PipelineSpec.

Module UnitOfWorkSpec.
Import PluginManagerImpl BackupEngine BackupScheduler PipelineSpec.

(** The three ways the model scan can end. *)
Lemma scan_models_cases (cn t : string) (files : list (string * list (string * model_class)))
    (w : world) :
  scan_models cn t files w = (Return None, w) \/
  exists c, Models.is_abstract c = false /\
            scan_models cn t files w =
              (Return (Some {| model_id := next_id w; model_cls := c |}), with_model t c w).
Proof.
  induction files as [| [stem module] rest IH]; cbn.
  - now left.
  - destruct (startswith "_" stem); [exact IH |].
    unfold bind, try_except, hasattr, getattr, lift.
    destruct (assoc cn module) as [c |]; cbn; [| exact IH].
    unfold instantiate_model.
    destruct (Models.is_abstract c) eqn:Habs; cbn; [exact IH |].
    right. exists c. split; [exact Habs | reflexivity].
Qed.

(** The three ways [get_device_model] can end. *)
Lemma get_device_model_cases (E : Env) (t : string) (w : world) :
  (exists m, _model_cache (plugin_manager w) !! t = Some m /\
             get_device_model E t w = (Return m, w)) \/
  (exists c, Models.is_abstract c = false /\
             get_device_model E t w =
               (Return {| model_id := next_id w; model_cls := c |}, with_model t c w)) \/
  (exists e, get_device_model E t w = (Raise e, w)).
Proof.
  unfold get_device_model, bind, get. cbn -[scan_models Models.models_dir].
  destruct (_model_cache (plugin_manager w) !! t) as [m |] eqn:Hc.
  - left. eauto.
  - right. unfold try_except, bind, lift, import_module.
    destruct (assoc t Models.models_dir) as [module |];
      cbn -[scan_models Models.models_dir].
    + unfold getattr. destruct (assoc (class_name_of E t) module) as [c |]; cbn.
      * unfold instantiate_model. destruct (Models.is_abstract c) eqn:Habs; cbn.
        -- right. eauto.
        -- left. exists c. split; [exact Habs | reflexivity].
      * right. eauto.
    + destruct (scan_models_cases (class_name_of E t) t Models.models_dir w)
        as [Hnone | (c & Habs & Hsome)].
      * rewrite Hnone. right. eauto.
      * rewrite Hsome. left. exists c. split; [exact Habs | reflexivity].
Qed.

(** A resolved model is of a concrete class, and resolution keeps the
    cache holding concrete models only and makes no external call. *)
Lemma get_device_model_concrete (E : Env) (t : string) (w w' : world) (m : model) :
  models_concrete w ->
  get_device_model E t w = (Return m, w') ->
  Models.is_abstract (model_cls m) = false /\ models_concrete w' /\ trace w' = trace w.
Proof.
  intros Hw Hrun.
  destruct (get_device_model_cases E t w)
    as [(m0 & Hhit & Heq) | [(c & Habs & Heq) | (e & Heq)]];
    rewrite Heq in Hrun; try discriminate; injection Hrun as <- <-.
  - split; [eapply Hw; eassumption |]. split; [exact Hw | reflexivity].
  - split; [exact Habs |]. split; [| reflexivity].
    intros t' m'. cbn. rewrite lookup_insert.
    destruct (decide (t = t')); [intros [= <-]; exact Habs | apply Hw].
Qed.

Lemma initial_world_concrete : models_concrete initial_world.
Proof. intros t m. cbn. rewrite lookup_empty. discriminate. Qed.

Lemma concat_starts (sep : string) (c : ascii) (s : string) (xs : list string) :
  exists r, String.concat sep (String c s :: xs) = String c r.
Proof. destruct xs; cbn; eauto. Qed.

(** The text a concrete model produces is never empty: its command list
    is not, and the text opens with the first delimiter line. *)
Lemma snapshot_truthy (E : Env) (d : Device) (h : list event) (m : model) (outs : list string) :
  Models.is_abstract (model_cls m) = false ->
  answers E d h (Models.get_commands m) outs ->
  truthy_str (Some (Models.process_config m
                      (join nl (zip_with segment (Models.get_commands m) outs)))) = true.
Proof.
  intros Habs Hans.
  assert (Hne : exists cmd cmds, Models.get_commands m = cmd :: cmds).
  { unfold Models.get_commands. destruct (model_cls m); cbn; try discriminate; eauto. }
  destruct Hne as (cmd & cmds & Hcmds). rewrite Hcmds in Hans |- *.
  inversion Hans as [| h0 c0 out cs os Hout Hrest]; subst.
  assert (Hid : forall s, Models.process_config m s = s).
  { intros s. unfold Models.process_config. destruct (model_cls m); reflexivity. }
  rewrite Hid. cbn [zip_with]. unfold join.
  assert (Hseg : exists r, segment cmd out = String "!" r) by (cbn; eauto).
  destruct Hseg as [r Hseg]. rewrite Hseg.
  destruct (concat_starts nl "!" r (zip_with segment cmds os)) as [r' Hr].
  rewrite Hr. reflexivity.
Qed.

(** The fan-out writes to every sink in turn and never raises, whatever
    the sinks answer. *)
Lemma save_to_outputs_spec (E : Env) (d : Device) (config : string)
    (output_modules : list instance) (w : world) :
  save_to_outputs E d config output_modules w =
    (Return tt, add_events (map (fun om => EvSaveBackup om d config) output_modules) w).
Proof.
  revert w. induction output_modules as [| om rest IH]; intros w; cbn.
  - now rewrite add_events_nil.
  - unfold bind, try_except, external.
    destruct (env_save_backup E (trace w) om d config) as [[] | e]; cbn;
      rewrite record_event_add, IH, add_events_app; reflexivity.
Qed.

(** A snapshot obtained under a concrete model is a non-empty text. *)
Lemma obtained_truthy (E : Env) (d : Device) (m : model) (w w' : world) (snapshot : string) :
  Models.is_abstract (model_cls m) = false ->
  backup_device E d m w = (Return (Some snapshot), w') ->
  truthy_str (Some snapshot) = true.
Proof.
  intros Habs Hrun.
  destruct (backup_device_inv E d m w w' snapshot Hrun) as (outs & Hans & -> & _).
  eapply snapshot_truthy; eassumption.
Qed.

(** With a snapshot obtained, the unit of work hands it to every sink in
    the order given and returns the device's name. *)
Lemma backup_single_device_obtained (E : Env) (d : Device) (output_modules : list instance)
    (w w2 : world) (snapshot : string) :
  models_concrete w ->
  snapshot_obtained E d w snapshot w2 ->
  _backup_single_device E d output_modules w =
    (Return (Some (name d)),
     add_events (map (fun om => EvSaveBackup om d snapshot) output_modules) w2).
Proof.
  intros Hw (m & w1 & Hmodel & Hrun).
  destruct (get_device_model_concrete _ _ _ _ _ Hw Hmodel) as (Habs & _ & _).
  pose proof (obtained_truthy E d m w1 w2 snapshot Habs Hrun) as Htruthy.
  unfold _backup_single_device, try_except, bind.
  rewrite Hmodel, Hrun, Htruthy. cbn [default].
  rewrite save_to_outputs_spec. reflexivity.
Qed.

(** Without a snapshot the unit of work returns [None]. *)
Lemma backup_single_device_failed (E : Env) (d : Device) (output_modules : list instance)
    (w : world) :
  (forall snapshot w2, ~ snapshot_obtained E d w snapshot w2) ->
  exists w', _backup_single_device E d output_modules w = (Return None, w').
Proof.
  intros Hnot. unfold _backup_single_device, try_except, bind.
  destruct (get_device_model E (device_type d) w) as [[m | e] w1] eqn:Hmodel.
  - destruct (backup_device_total E d m w1) as (r & w2 & Hrun). rewrite Hrun.
    destruct r as [snapshot |].
    + exfalso. apply (Hnot snapshot w2). exists m, w1. split; assumption.
    + cbn. eauto.
  - cbn. eauto.
Qed.

(** Whether a snapshot is obtained is settled by the state. *)
Lemma snapshot_obtained_dec (E : Env) (d : Device) (w : world) :
  (exists snapshot w2, snapshot_obtained E d w snapshot w2) \/
  (forall snapshot w2, ~ snapshot_obtained E d w snapshot w2).
Proof.
  unfold snapshot_obtained.
  destruct (get_device_model E (device_type d) w) as [[m | e] w1] eqn:Hmodel.
  - destruct (backup_device_total E d m w1) as ([snapshot |] & w2 & Hrun).
    + left. exists snapshot, w2, m, w1. split; [reflexivity | exact Hrun].
    + right. intros snapshot w2' (m' & w1' & [= <- <-] & Hrun').
      rewrite Hrun in Hrun'. discriminate.
  - right. intros snapshot w2 (m' & w1' & [=] & _).
Qed.

(** C2. The per-device unit of work never lets an exception escape: from
    every state of the scheduler it returns, and it returns the device's
    name when a snapshot was obtained and the failure marker [None] in
    every other case (the model did not resolve, the session could not
    be opened, a command failed, whatever the exception). *)
Theorem backup_single_device_never_raises (E : Env) (d : Device)
    (output_modules : list instance) (w : world) :
  models_concrete w ->
  exists r w',
    _backup_single_device E d output_modules w = (Return r, w') /\
    ((r = Some (name d) /\ exists snapshot w2, snapshot_obtained E d w snapshot w2) \/
     (r = None /\ forall snapshot w2, ~ snapshot_obtained E d w snapshot w2)).
Proof.
  intros Hw.
  destruct (snapshot_obtained_dec E d w) as [(snapshot & w2 & Hobt) | Hnot].
  - eexists _, _. split.
    + apply (backup_single_device_obtained E d output_modules w w2 snapshot Hw Hobt).
    + left. split; [reflexivity | eauto].
  - destruct (backup_single_device_failed E d output_modules w Hnot) as (w' & Hrun).
    exists None, w'. split; [exact Hrun |]. right. split; [reflexivity | exact Hnot].
Qed.

End UnitOfWorkSpec.

(* ================================================================== *)
(** * Properties of a run *)
(* ================================================================== *)

Module FrameRules.

Section Rules.
Context {R : world -> world -> Prop}.
Hypothesis R_refl : forall w, R w w.
Hypothesis R_trans : forall w1 w2 w3, R w1 w2 -> R w2 w3 -> R w1 w3.

Lemma keeps_ret {A} (a : A) : keeps R (ret a).
Proof. intros w. apply R_refl. Qed.

Lemma keeps_raise {A} (e : exn) : keeps R (@raise world A e).
Proof. intros w. apply R_refl. Qed.

Lemma keeps_lift {A} (r : result A) : keeps R (lift r).
Proof. intros w. apply R_refl. Qed.

Lemma keeps_get : keeps R get.
Proof. intros w. apply R_refl. Qed.

Lemma keeps_bind {A B} (c : M world A) (k : A -> M world B) :
  keeps R c -> (forall a, keeps R (k a)) -> keeps R (bind c k).
Proof.
  intros Hc Hk w. unfold bind. specialize (Hc w).
  destruct (c w) as [[a | e] w1]; cbn in *.
  - eapply R_trans; [exact Hc | apply Hk].
  - exact Hc.
Qed.

Lemma keeps_try_except {A} (c : M world A) (h : exn -> M world A) :
  keeps R c -> (forall e, keeps R (h e)) -> keeps R (try_except c h).
Proof.
  intros Hc Hh w. unfold try_except. specialize (Hc w).
  destruct (c w) as [[a | e] w1]; cbn in *.
  - exact Hc.
  - eapply R_trans; [exact Hc | apply Hh].
Qed.

End Rules.

Lemma calls_only_refl (P : event -> bool) (w : world) : calls_only P w w.
Proof. exists []. split; [now rewrite app_nil_r | reflexivity]. Qed.

Lemma calls_only_trans (P : event -> bool) (w1 w2 w3 : world) :
  calls_only P w1 w2 -> calls_only P w2 w3 -> calls_only P w1 w3.
Proof.
  intros (e1 & H1 & F1) (e2 & H2 & F2). exists (e1 ++ e2). split.
  - rewrite H2, H1. now rewrite app_assoc.
  - rewrite forallb_app, F1, F2. reflexivity.
Qed.

Lemma calls_only_weaken (P Q : event -> bool) (w w' : world) :
  (forall ev, P ev = true -> Q ev = true) -> calls_only P w w' -> calls_only Q w w'.
Proof.
  intros HPQ (evs & Htr & Hall). exists evs. split; [exact Htr |].
  rewrite forallb_forall in Hall |- *. auto.
Qed.

End FrameRules.

Module RunSpec.
Import PluginManagerImpl BackupEngine BackupScheduler FrameRules.

Create HintDb frames.

(** Decompose a computation along its structure, stopping at the
    operations already dealt with. *)
Ltac frame refl trans :=
  repeat first
    [ solve [auto with frames nocore]
    | apply (keeps_ret refl)
    | apply (keeps_raise refl)
    | apply (keeps_lift refl)
    | apply (keeps_get refl)
    | apply (keeps_bind trans); [| intros ?]
    | apply (keeps_try_except trans); [| intros ?]
    | match goal with
      | |- keeps _ (match ?x with _ => _ end) => destruct x
      | |- keeps _ (if ?b then _ else _) => destruct b
      end ].

(** ** The primitive steps *)

Lemma fresh_calls (P : event -> bool) : keeps (calls_only P) fresh.
Proof. intros w. exists []. cbn. now rewrite app_nil_r. Qed.
#[local] Hint Resolve fresh_calls : frames.

Lemma external_calls {A} (P : event -> bool) (ev : event) (ans : list event -> result A) :
  P ev = true -> keeps (calls_only P) (external ev ans).
Proof. intros HP w. exists [ev]. cbn. now rewrite HP. Qed.

Lemma set_plugin_manager_calls (P : event -> bool) (f : PluginManager -> PluginManager) :
  keeps (calls_only P) (modify (set_plugin_manager f)).
Proof. intros w. exists []. cbn. now rewrite app_nil_r. Qed.
#[local] Hint Resolve set_plugin_manager_calls : frames.

Lemma set_database_calls (P : event -> bool) (f : list row -> list row) :
  keeps (calls_only P) (modify (set_database f)).
Proof. intros w. exists []. cbn. now rewrite app_nil_r. Qed.
#[local] Hint Resolve set_database_calls : frames.

Ltac calls_frame P :=
  frame (calls_only_refl P) (calls_only_trans P);
  try (apply external_calls; reflexivity).

(** ** Resolving modules and reading the inventory *)

Lemma construct_calls (E : Env) (k : module_class) (c : cfg) :
  keeps (calls_only is_setup_call) (construct E k c).
Proof. unfold construct, new_instance. calls_frame is_setup_call. Qed.
#[local] Hint Resolve construct_calls : frames.

Lemma load_input_module_calls (E : Env) (t : string) (c : cfg) :
  keeps (calls_only is_setup_call) (load_input_module E t c).
Proof.
  unfold load_input_module, cache_input. calls_frame is_setup_call.
Qed.
#[local] Hint Resolve load_input_module_calls : frames.

Lemma load_output_module_calls (E : Env) (t : string) (c : cfg) :
  keeps (calls_only is_setup_call) (load_output_module E t c).
Proof.
  unfold load_output_module, cache_output. calls_frame is_setup_call.
Qed.
#[local] Hint Resolve load_output_module_calls : frames.

Lemma load_devices_calls (E : Env) (sources : list entry) (acc : list Device) :
  keeps (calls_only is_setup_call) (load_devices E sources acc).
Proof.
  revert acc. induction sources as [| source rest IH]; intros acc; cbn [load_devices].
  - calls_frame is_setup_call.
  - calls_frame is_setup_call.
Qed.
#[local] Hint Resolve load_devices_calls : frames.

Lemma load_outputs_calls (E : Env) (dests : list entry) (acc : list instance) :
  keeps (calls_only is_setup_call) (load_outputs E dests acc).
Proof.
  revert acc. induction dests as [| dest rest IH]; intros acc; cbn [load_outputs].
  - calls_frame is_setup_call.
  - calls_frame is_setup_call.
Qed.
#[local] Hint Resolve load_outputs_calls : frames.

(** Neither loop lets an exception out. *)
Lemma load_devices_total (E : Env) (sources : list entry) (acc : list Device) (w : world) :
  exists devices w', load_devices E sources acc w = (Return devices, w').
Proof.
  revert acc w. induction sources as [| source rest IH]; intros acc w; cbn [load_devices].
  - cbn. eauto.
  - unfold bind at 1. unfold try_except at 1.
    destruct (bind (load_input_module E _ _) _ w) as [[ds | e] w1]; cbn; apply IH.
Qed.

Lemma load_outputs_total (E : Env) (dests : list entry) (acc : list instance) (w : world) :
  exists output_modules w', load_outputs E dests acc w = (Return output_modules, w').
Proof.
  revert acc w. induction dests as [| dest rest IH]; intros acc w; cbn [load_outputs].
  - cbn. eauto.
  - unfold bind at 1. unfold try_except at 1.
    destruct (bind (load_output_module E _ _) _ w) as [[ds | e] w1]; cbn; apply IH.
Qed.

Lemma load_devices_loaded (E : Env) (config : Config) (w : world) :
  load_devices E (input config) [] (stamped E w) =
    (Return (devices_loaded E config w),
     snd (load_devices E (input config) [] (stamped E w))).
Proof.
  unfold devices_loaded.
  destruct (load_devices_total E (input config) [] (stamped E w)) as (ds & w1 & Heq).
  rewrite Heq. reflexivity.
Qed.

Lemma load_outputs_loaded (E : Env) (config : Config) (w : world) :
  let w1 := snd (load_devices E (input config) [] (stamped E w)) in
  load_outputs E (output config) [] w1 =
    (Return (outputs_loaded E config w), snd (load_outputs E (output config) [] w1)).
Proof.
  intros w1. unfold outputs_loaded. fold w1.
  destruct (load_outputs_total E (output config) [] w1) as (oms & w2 & Heq).
  rewrite Heq. reflexivity.
Qed.

Lemma setup_not_sink_write (ev : event) : is_setup_call ev = true -> not_sink_write ev = true.
Proof. destruct ev; cbn; congruence. Qed.

Lemma setup_not_session (ev : event) : is_setup_call ev = true -> not_session_event ev = true.
Proof. destruct ev; cbn; congruence. Qed.

(** C7. A run whose inventory sources yield no device returns
    [{success: 0, failed: 0, total: 0}] having called no sink's
    [save_backup]; a run that obtains [N > 0] devices and resolves no
    output module returns [{success: 0, failed: 0, total: N}] having
    opened no device session (nor written to any sink). *)
Theorem run_backup_empty_input_or_output (E : Env) (config : Config) (w : world) :
  (devices_loaded E config w = [] ->
   exists w', run_backup E config w = (Return zero_results, w') /\
              calls_only not_sink_write w w') /\
  (devices_loaded E config w <> [] ->
   outputs_loaded E config w = [] ->
   exists w', run_backup E config w =
                (Return {| success := 0; failed := 0;
                           total := length (devices_loaded E config w) |}, w') /\
              calls_only not_session_event w w' /\ calls_only not_sink_write w w').
Proof.
  pose proof (load_devices_loaded E config w) as Hdev.
  pose proof (load_devices_calls E (input config) [] (stamped E w)) as Hcalls1.
  pose proof (load_outputs_loaded E config w) as Hout. cbn zeta in Hout.
  pose proof (load_outputs_calls E (output config) []
                (snd (load_devices E (input config) [] (stamped E w)))) as Hcalls2.
  set (w1 := snd (load_devices E (input config) [] (stamped E w))) in *.
  set (w2 := snd (load_outputs E (output config) [] w1)) in *.
  assert (H01 : calls_only is_setup_call w w1) by exact Hcalls1.
  assert (H12 : calls_only is_setup_call w1 w2) by exact Hcalls2.
  split.
  - intros Hzero. exists w1. split.
    + unfold run_backup, run_backup_try, bind, try_except, stamp_last_run.
      fold (stamped E w). rewrite Hdev, Hzero. reflexivity.
    + eapply calls_only_weaken; [apply setup_not_sink_write | exact H01].
  - intros Hsome Hnone. exists w2. split.
    + unfold run_backup, run_backup_try, bind, try_except, stamp_last_run.
      fold (stamped E w). rewrite Hdev.
      destruct (devices_loaded E config w) as [| d ds] eqn:Hds; [congruence |].
      cbn [truthy_list negb]. rewrite Hout, Hnone. reflexivity.
    + pose proof (calls_only_trans _ _ _ _ H01 H12) as H02. split.
      * eapply calls_only_weaken; [apply setup_not_session | exact H02].
      * eapply calls_only_weaken; [apply setup_not_sink_write | exact H02].
Qed.

(** ** The worker pool *)

(** The unit of work returns from every state. *)
Lemma backup_single_device_total (E : Env) (d : Device) (output_modules : list instance)
    (w : world) :
  exists r w', _backup_single_device E d output_modules w = (Return r, w').
Proof.
  unfold _backup_single_device, try_except.
  destruct (bind (get_device_model E (device_type d)) _ w) as [[r | e] w']; cbn; eauto.
Qed.

(** Every future holds a value, one future per device. *)
Lemma submit_all_returns (E : Env) (devices : list Device) (output_modules : list instance)
    (w : world) :
  exists names w',
    submit_all E devices output_modules w = (Return (map Return names), w') /\
    length names = length devices.
Proof.
  revert w. induction devices as [| d rest IH]; intros w; cbn [submit_all].
  - exists [], w. split; reflexivity.
  - unfold bind at 1.
    destruct (backup_single_device_total E d output_modules w) as (r & w1 & Hrun).
    rewrite Hrun. unfold bind at 1.
    destruct (IH w1) as (names & w2 & Hrest & Hlen). rewrite Hrest.
    exists (r :: names), w2. split; [reflexivity | cbn; now rewrite Hlen].
Qed.

(** Counting futures that all hold a value: each one adds to [success]
    or to [failed], [total] stays. *)
Lemma collect_counts (names : list (option string)) (res : results) (acc : list string)
    (w : world) :
  exists res',
    collect (map Return names) res acc w = (Return res', w) /\
    success res' + failed res' = success res + failed res + length names /\
    total res' = total res.
Proof.
  revert res acc. induction names as [| n rest IH]; intros res acc; cbn [collect map].
  - exists res. cbn. split; [reflexivity | lia].
  - unfold bind, lift. destruct (truthy_str n).
    + destruct (IH {| success := success res + 1; failed := failed res;
                      total := total res |} (acc ++ [default EmptyString n]))
        as (res' & Hrun & Hsum & Htot).
      exists res'. split; [exact Hrun |]. cbn in Hsum, Htot |- *. lia.
    + destruct (IH {| success := success res; failed := failed res + 1;
                      total := total res |} acc) as (res' & Hrun & Hsum & Htot).
      exists res'. split; [exact Hrun |]. cbn in Hsum, Htot |- *. lia.
Qed.

(** The counts of a [try] block that runs to its end with devices and
    output modules at hand. *)
Lemma run_backup_try_counts (E : Env) (config : Config) (w w' : world) (res : results) :
  devices_loaded E config w <> [] ->
  outputs_loaded E config w <> [] ->
  run_backup_try E config (stamped E w) = (Return res, w') ->
  success res + failed res = total res /\
  total res = length (devices_loaded E config w).
Proof.
  intros Hdevs Houts.
  pose proof (load_devices_loaded E config w) as Hdev.
  pose proof (load_outputs_loaded E config w) as Hout. cbn zeta in Hout.
  unfold run_backup_try. unfold bind at 1. rewrite Hdev.
  destruct (devices_loaded E config w) as [| d ds] eqn:Hds; [congruence |].
  cbn [truthy_list negb]. unfold bind at 1. rewrite Hout.
  destruct (outputs_loaded E config w) as [| om oms] eqn:Homs; [congruence |].
  cbn [truthy_list negb]. unfold bind at 1. unfold ThreadPoolExecutor.
  destruct (max_workers config <=? 0)%Z; [discriminate |].
  unfold bind at 1.
  destruct (submit_all_returns E (d :: ds) (om :: oms)
              (snd (load_outputs E (output config) []
                      (snd (load_devices E (input config) [] (stamped E w))))))
    as (names & w3 & Hsub & Hlen).
  rewrite Hsub.
  destruct (collect_counts names
              {| success := 0; failed := 0; total := length (d :: ds) |} [] w3)
    as (res' & Hcol & Hsum & Htot).
  rewrite Hcol. unfold bind.
  destruct (DeviceDatabase.upsert_devices E (d :: ds) w3) as [[[] | e] w4]; [| discriminate].
  intros [= <- <-]. cbn in Hsum, Htot, Hlen |- *. split; lia.
Qed.

(** C10. [run_backup] returns from every state, never raising; when its
    [try] block raises, whatever the exception, the result is all
    zeros; and when the block runs to its end with at least one device
    and one output module loaded, the result is the block's and
    satisfies [success + failed = total], [total] being the number of
    devices loaded. *)
Theorem run_backup_counts (E : Env) (config : Config) (w : world) :
  (exists res w', run_backup E config w = (Return res, w')) /\
  (forall e w', run_backup_try E config (stamped E w) = (Raise e, w') ->
                run_backup E config w = (Return zero_results, w')) /\
  (forall res w', run_backup_try E config (stamped E w) = (Return res, w') ->
                  devices_loaded E config w <> [] ->
                  outputs_loaded E config w <> [] ->
                  run_backup E config w = (Return res, w') /\
                  success res + failed res = total res /\
                  total res = length (devices_loaded E config w)).
Proof.
  assert (Hunfold : run_backup E config w =
                    try_except (run_backup_try E config)
                      (fun _ => ret {| success := 0; failed := 0; total := 0 |})
                      (stamped E w)) by reflexivity.
  split; [| split].
  - rewrite Hunfold. unfold try_except.
    destruct (run_backup_try E config (stamped E w)) as [[res | e] w']; cbn; eauto.
  - intros e w' Hraise. rewrite Hunfold. unfold try_except. rewrite Hraise. reflexivity.
  - intros res w' Hret Hdevs Houts. split.
    + rewrite Hunfold. unfold try_except. rewrite Hret. reflexivity.
    + eapply run_backup_try_counts; eassumption.
Qed.

End RunSpec.

(* ================================================================== *)
(** * Properties of the device cache *)
(* ================================================================== *)

Module DeviceDatabaseSpec.
Import DeviceDatabase.

Lemma upsert_names_present (now : Z) (d : Device) (table : list row) :
  In (name d) (map row_name table) ->
  map row_name (upsert now d table) = map row_name table.
Proof.
  induction table as [| r rest IH]; cbn; intros Hin; [contradiction |].
  destruct (String.eqb_spec (row_name r) (name d)) as [Heq | Hne]; cbn.
  - reflexivity.
  - f_equal. apply IH. destruct Hin as [Hin | Hin]; [contradiction | exact Hin].
Qed.

Lemma upsert_names_absent (now : Z) (d : Device) (table : list row) :
  ~ In (name d) (map row_name table) ->
  map row_name (upsert now d table) = map row_name table ++ [name d].
Proof.
  induction table as [| r rest IH]; cbn; intros Hnot; [reflexivity |].
  destruct (String.eqb_spec (row_name r) (name d)) as [Heq | Hne]; cbn.
  - exfalso. apply Hnot. now left.
  - f_equal. apply IH. intros Hin. apply Hnot. now right.
Qed.

Lemma in_names_dec (n : string) (table : list row) :
  In n (map row_name table) \/ ~ In n (map row_name table).
Proof. destruct (in_dec string_dec n (map row_name table)); auto. Qed.

(** The primary key survives an upsert. *)
Lemma upsert_NoDup (now : Z) (d : Device) (table : list row) :
  List.NoDup (map row_name table) -> List.NoDup (map row_name (upsert now d table)).
Proof.
  intros Hnd. destruct (in_names_dec (name d) table) as [Hin | Hnot].
  - now rewrite upsert_names_present.
  - rewrite upsert_names_absent by exact Hnot.
    apply List.NoDup_app.
    + exact Hnd.
    + constructor; [intros [] | constructor].
    + intros a Ha [<- | []]. contradiction.
Qed.

Lemma upsert_all_cons (x : Z * Device) (stamped : list (Z * Device)) (table : list row) :
  upsert_all (x :: stamped) table = upsert_all stamped (upsert (fst x) (snd x) table).
Proof. reflexivity. Qed.

Lemma upsert_all_NoDup (stamped : list (Z * Device)) (table : list row) :
  List.NoDup (map row_name table) -> List.NoDup (map row_name (upsert_all stamped table)).
Proof.
  revert table. induction stamped as [| x rest IH]; intros table Hnd.
  - exact Hnd.
  - rewrite upsert_all_cons. apply IH. now apply upsert_NoDup.
Qed.

Lemma upsert_names_grow (now : Z) (d : Device) (table : list row) (n : string) :
  In n (map row_name table) -> In n (map row_name (upsert now d table)).
Proof.
  intros Hin. destruct (in_names_dec (name d) table) as [Hd | Hd].
  - now rewrite upsert_names_present.
  - rewrite upsert_names_absent by exact Hd. apply in_or_app. now left.
Qed.

Lemma upsert_names_self (now : Z) (d : Device) (table : list row) :
  In (name d) (map row_name (upsert now d table)).
Proof.
  destruct (in_names_dec (name d) table) as [Hd | Hd].
  - now rewrite upsert_names_present.
  - rewrite upsert_names_absent by exact Hd. apply in_or_app. right. now left.
Qed.

Lemma upsert_all_names_grow (stamped : list (Z * Device)) (table : list row) (n : string) :
  In n (map row_name table) -> In n (map row_name (upsert_all stamped table)).
Proof.
  revert table. induction stamped as [| x rest IH]; intros table Hin.
  - exact Hin.
  - rewrite upsert_all_cons. apply IH. now apply upsert_names_grow.
Qed.

(** Every device of the statements has a row afterwards. *)
Lemma upsert_all_names_cover (stamped : list (Z * Device)) (table : list row) (d : Device) :
  In d (map snd stamped) -> In (name d) (map row_name (upsert_all stamped table)).
Proof.
  revert table. induction stamped as [| x rest IH]; intros table Hin.
  - contradiction.
  - rewrite upsert_all_cons. destruct Hin as [<- | Hin].
    + apply upsert_all_names_grow. apply upsert_names_self.
    + now apply IH.
Qed.

(** A row under another name is not touched by an upsert. *)
Lemma upsert_other (now : Z) (d : Device) (table : list row) (r : row) :
  In r (upsert now d table) -> row_name r <> name d -> In r table.
Proof.
  induction table as [| r0 rest IH]; cbn; intros Hin Hne.
  - destruct Hin as [<- | []]. now contradiction Hne.
  - destruct (String.eqb_spec (row_name r0) (name d)) as [Heq | Hne0].
    + destruct Hin as [<- | Hin]; [now contradiction Hne | now right].
    + destruct Hin as [<- | Hin]; [now left | right; now apply IH].
Qed.

(** The row under the upserted name carries the device's facts. *)
Lemma upsert_self (now : Z) (d : Device) (table : list row) (r : row) :
  List.NoDup (map row_name table) ->
  In r (upsert now d table) -> row_name r = name d ->
  row_host r = host d /\ row_device_type r = device_type d /\ row_last_backup r = now.
Proof.
  induction table as [| r0 rest IH]; cbn; intros Hnd Hin Hname.
  - destruct Hin as [<- | []]. now cbn.
  - apply List.NoDup_cons_iff in Hnd as [Hfresh Hnd].
    destruct (String.eqb_spec (row_name r0) (name d)) as [Heq | Hne0].
    + destruct Hin as [<- | Hin]; [now cbn |].
      exfalso. apply Hfresh. rewrite Heq, <- Hname. now apply in_map.
    + destruct Hin as [<- | Hin]; [congruence | now apply IH].
Qed.

Lemma last_named_name (n : string) (devices : list Device) (d : Device) :
  last_named n devices = Some d -> name d = n /\ In d devices.
Proof.
  induction devices as [| d0 rest IH]; cbn; [discriminate |].
  destruct (last_named n rest) as [d' |].
  - intros [= ->]. destruct (IH eq_refl) as [Hn Hin]. split; [exact Hn | now right].
  - destruct (String.eqb_spec (name d0) n) as [Heq | Hne]; [| discriminate].
    intros [= <-]. split; [exact Heq | now left].
Qed.

Lemma last_named_none (n : string) (devices : list Device) (d : Device) :
  last_named n devices = None -> In d devices -> name d <> n.
Proof.
  induction devices as [| d0 rest IH]; cbn; [contradiction |].
  destruct (last_named n rest) as [d' |]; [discriminate |].
  destruct (String.eqb_spec (name d0) n) as [Heq | Hne]; [discriminate |].
  intros _ [<- | Hin]; [exact Hne | now apply IH].
Qed.

Lemma last_named_in (devices : list Device) (d : Device) :
  In d devices -> exists d', last_named (name d) devices = Some d'.
Proof.
  intros Hin. destruct (last_named (name d) devices) as [d' |] eqn:Hl; [eauto |].
  exfalso. now apply (last_named_none _ _ d Hl Hin).
Qed.

(** In a list of distinct names the last entry under a name is the only one. *)
Lemma last_named_unique (devices : list Device) (d d' : Device) :
  List.NoDup (map name devices) -> In d devices ->
  last_named (name d) devices = Some d' -> d' = d.
Proof.
  induction devices as [| d0 rest IH]; cbn; intros Hnd Hin Hl; [contradiction |].
  apply List.NoDup_cons_iff in Hnd as [Hfresh Hnd].
  destruct (last_named (name d) rest) as [d1 |] eqn:Hrest.
  - injection Hl as ->. destruct Hin as [-> | Hin].
    + exfalso. apply Hfresh. destruct (last_named_name _ _ _ Hrest) as [Hn Hin1].
      rewrite <- Hn. now apply in_map.
    + now apply IH.
  - destruct Hin as [-> | Hin].
    + rewrite String.eqb_refl in Hl. now injection Hl as <-.
    + exfalso. now apply (last_named_none _ _ d Hrest Hin).
Qed.

Lemma last_stamped_name (n : string) (stamped : list (Z * Device)) (x : Z * Device) :
  last_stamped n stamped = Some x -> name (snd x) = n /\ In x stamped.
Proof.
  induction stamped as [| x0 rest IH]; cbn; [discriminate |].
  destruct (last_stamped n rest) as [y |].
  - intros [= ->]. destruct (IH eq_refl) as [Hn Hin]. split; [exact Hn | now right].
  - destruct (String.eqb_spec (name (snd x0)) n) as [Heq | Hne]; [| discriminate].
    intros [= <-]. split; [exact Heq | now left].
Qed.

(** The statement that ran last for a name is the one of the last entry
    the device list holds under that name. *)
Lemma last_stamped_named (n : string) (stamped : list (Z * Device)) :
  last_named n (map snd stamped) = option_map snd (last_stamped n stamped).
Proof.
  induction stamped as [| x rest IH]; cbn; [reflexivity |].
  rewrite IH. destruct (last_stamped n rest) as [y |]; cbn; [reflexivity |].
  destruct (String.eqb (name (snd x)) n); reflexivity.
Qed.

(** Rows under names the statements do not hold are not touched. *)
Lemma upsert_all_other (stamped : list (Z * Device)) (table : list row) (r : row) :
  In r (upsert_all stamped table) -> last_stamped (row_name r) stamped = None ->
  In r table.
Proof.
  revert table. induction stamped as [| x rest IH]; intros table Hin Hl.
  - exact Hin.
  - rewrite upsert_all_cons in Hin. cbn in Hl.
    destruct (last_stamped (row_name r) rest) as [y |] eqn:Hrest; [discriminate |].
    destruct (String.eqb_spec (name (snd x)) (row_name r)) as [Heq | Hne]; [discriminate |].
    apply (upsert_other (fst x) (snd x)); [| congruence]. now apply IH.
Qed.

(** After the statements, a row under a name they hold carries the
    facts of the last statement for that name and its time. *)
Lemma upsert_all_agrees (stamped : list (Z * Device)) (table : list row)
    (r : row) (now : Z) (d : Device) :
  List.NoDup (map row_name table) ->
  In r (upsert_all stamped table) ->
  last_stamped (row_name r) stamped = Some (now, d) ->
  row_host r = host d /\ row_device_type r = device_type d /\ row_last_backup r = now.
Proof.
  revert table. induction stamped as [| x rest IH]; intros table Hnd Hin Hl.
  - discriminate.
  - rewrite upsert_all_cons in Hin. cbn in Hl.
    destruct (last_stamped (row_name r) rest) as [y |] eqn:Hrest.
    + injection Hl as ->. apply (IH (upsert (fst x) (snd x) table)); auto using upsert_NoDup.
    + destruct (String.eqb_spec (name (snd x)) (row_name r)) as [Heq | Hne]; [| discriminate].
      injection Hl as ->. cbn in Heq.
      apply (upsert_self now d table); [exact Hnd | | congruence].
      change now with (fst (now, d)). change d with (snd (now, d)) at 2.
      apply (upsert_all_other rest); assumption.
Qed.

(** A statement for a device already in the table rewrites its row in place. *)
Lemma upsert_present_map (now : Z) (d : Device) (table : list row) :
  List.NoDup (map row_name table) ->
  In (name d) (map row_name table) ->
  upsert now d table = map (refresh [(now, d)]) table.
Proof.
  induction table as [| r rest IH]; cbn; intros Hnd Hin; [contradiction |].
  apply List.NoDup_cons_iff in Hnd as [Hfresh Hnd].
  unfold refresh at 1. cbn. rewrite (String.eqb_sym (name d)).
  destruct (String.eqb_spec (row_name r) (name d)) as [Heq | Hne].
  - f_equal. symmetry. rewrite <- (map_id rest) at 2. apply map_ext_in.
    intros r' Hr'. unfold refresh. cbn.
    destruct (String.eqb_spec (name d) (row_name r')) as [Heq' | Hne']; [| reflexivity].
    exfalso. apply Hfresh. rewrite Heq, Heq'. now apply in_map.
  - f_equal. apply IH; [exact Hnd |]. destruct Hin as [Hin | Hin]; [contradiction | exact Hin].
Qed.

Lemma refresh_name (stamped : list (Z * Device)) (r : row) :
  row_name (refresh stamped r) = row_name r.
Proof. unfold refresh. destruct (last_stamped _ _) as [[now d] |]; reflexivity. Qed.

Lemma refresh_cons (x : Z * Device) (stamped : list (Z * Device)) (r : row) :
  refresh stamped (refresh [x] r) = refresh (x :: stamped) r.
Proof.
  unfold refresh at 1 3. rewrite refresh_name. cbn [last_stamped].
  destruct (last_stamped (row_name r) stamped) as [[now d] |].
  - unfold refresh. cbn. destruct (String.eqb (name (snd x)) (row_name r));
      [destruct x |]; reflexivity.
  - reflexivity.
Qed.

(** When every device of the statements already has its row, they
    rewrite rows in place and add none. *)
Lemma upsert_all_present_map (stamped : list (Z * Device)) (table : list row) :
  List.NoDup (map row_name table) ->
  (forall d, In d (map snd stamped) -> In (name d) (map row_name table)) ->
  upsert_all stamped table = map (refresh stamped) table.
Proof.
  revert table. induction stamped as [| x rest IH]; intros table Hnd Hcover.
  - cbn. symmetry. rewrite <- (map_id table) at 2. apply map_ext. reflexivity.
  - rewrite upsert_all_cons. rewrite IH.
    + destruct x as [now d]. cbn [fst snd].
      rewrite upsert_present_map; [| exact Hnd | apply Hcover; now left].
      rewrite map_map. apply map_ext. intros r. apply refresh_cons.
    + now apply upsert_NoDup.
    + intros d' Hd'. apply upsert_names_grow. apply Hcover. now right.
Qed.

(** Under a primary key, a name in the table selects exactly one row. *)
Lemma select_by_name_unique (n : string) (table : list row) :
  List.NoDup (map row_name table) -> In n (map row_name table) ->
  exists r, select_by_name n table = [r] /\ In r table /\ row_name r = n.
Proof.
  induction table as [| r0 rest IH]; cbn; intros Hnd Hin; [contradiction |].
  apply List.NoDup_cons_iff in Hnd as [Hfresh Hnd].
  destruct (String.eqb_spec (row_name r0) n) as [Heq | Hne].
  - exists r0. split; [| split; [now left | exact Heq]].
    f_equal. unfold select_by_name in *.
    destruct (List.filter _ rest) as [| r' l] eqn:Hf; [reflexivity |].
    exfalso. assert (Hr' : In r' (List.filter (fun r => String.eqb (row_name r) n) rest))
      by (rewrite Hf; now left).
    apply filter_In in Hr' as [Hr' Hn']. apply String.eqb_eq in Hn'.
    apply Hfresh. rewrite Heq, <- Hn'. now apply in_map.
  - destruct Hin as [Hin | Hin]; [contradiction |].
    destruct (IH Hnd Hin) as (r & Hsel & Hr & Hname).
    exists r. split; [exact Hsel |]. split; [now right | exact Hname].
Qed.

Lemma Forall2_map_self {A} (P : A -> A -> Prop) (f : A -> A) (l : list A) :
  (forall x, In x l -> P x (f x)) -> Forall2 P l (map f l).
Proof.
  induction l as [| x rest IH]; cbn; intros Hall; constructor.
  - apply Hall. now left.
  - apply IH. intros y Hy. apply Hall. now right.
Qed.

(** ** The method, statement by statement *)

Lemma sqlite_works_app (E : Env) (h : list event) (a b : list event) :
  sqlite_works E h (a ++ b) = sqlite_works E h a && sqlite_works E (h ++ a) b.
Proof.
  revert h. induction a as [| ev rest IH]; intros h; cbn.
  - now rewrite app_nil_r.
  - destruct (env_sqlite E h); [| reflexivity].
    rewrite IH, <- app_assoc. reflexivity.
Qed.

Lemma stamp_each_devices (E : Env) (h : list event) (devices : list Device) :
  map snd (stamp_each E h devices) = devices.
Proof.
  revert h. induction devices as [| d rest IH]; intros h; cbn; [| rewrite IH]; reflexivity.
Qed.

Lemma clock_later (E : Env) (h evs : list event) :
  clock_never_goes_back E -> (env_now E h <= env_now E (h ++ evs))%Z.
Proof.
  intros Hclock. induction evs as [| ev rest IH] using rev_ind.
  - rewrite app_nil_r. lia.
  - rewrite app_assoc. specialize (Hclock (h ++ rest) ev). lia.
Qed.

(** Every statement of a call runs between the start of the loop and
    its end. *)
Lemma stamp_each_between (E : Env) (h : list event) (devices : list Device) (x : Z * Device) :
  clock_never_goes_back E ->
  In x (stamp_each E h devices) ->
  (env_now E h <= fst x <= env_now E (h ++ map EvInsert devices))%Z.
Proof.
  intros Hclock. revert h. induction devices as [| d rest IH]; intros h Hin; [destruct Hin |].
  cbn in Hin. destruct Hin as [<- | Hin]; cbn [fst map].
  - split; [lia | now apply clock_later].
  - specialize (IH _ Hin). rewrite <- app_assoc in IH. cbn in IH.
    pose proof (Hclock h (EvInsert d)). lia.
Qed.

(** The loop over the devices when SQLite accepts every statement. *)
Lemma upsert_each_ok (E : Env) (devices : list Device) (w : world) :
  sqlite_works E (trace w) (map EvInsert devices) = true ->
  upsert_each E devices w =
    (Return tt,
     set_database (upsert_all (stamp_each E (trace w) devices))
       (add_events (map EvInsert devices) w)).
Proof.
  revert w. induction devices as [| d rest IH]; intros w Hok.
  - cbn. unfold set_database, add_events. cbn. rewrite app_nil_r. now destruct w.
  - cbn in Hok. cbn [upsert_each]. unfold bind at 1.
    unfold execute_upsert, bind, get, external, modify.
    destruct (env_sqlite E (trace w)) as [[] |] eqn:Hsql; [| discriminate].
    rewrite IH by exact Hok.
    unfold set_database, add_events, record_event. cbn.
    rewrite <- app_assoc. reflexivity.
Qed.

(** [upsert_devices] when SQLite accepts the opening, every statement
    and the commit. *)
Lemma upsert_devices_ok (E : Env) (devices : list Device) (w : world) :
  sqlite_works E (trace w) (upsert_calls devices) = true ->
  upsert_devices E devices w =
    (Return tt,
     set_database (upsert_all (stamp_each E (trace w ++ [EvUpsert devices]) devices))
       (add_events (upsert_calls devices) w)).
Proof.
  intros Hok. unfold upsert_calls in Hok. cbn in Hok.
  destruct (env_sqlite E (trace w)) as [[] |] eqn:Hopen; [| discriminate].
  rewrite sqlite_works_app in Hok. apply andb_prop in Hok as [Hloop Hcommit].
  cbn in Hcommit.
  destruct (env_sqlite E ((trace w ++ [EvUpsert devices]) ++ map EvInsert devices))
    as [[] |] eqn:Hc; [| discriminate].
  unfold upsert_devices, with_connect. unfold bind at 1, get. unfold bind at 1, external.
  rewrite Hopen. unfold try_except, bind.
  rewrite (upsert_each_ok E devices (record_event (EvUpsert devices) w)) by exact Hloop.
  cbn [trace set_database add_events record_event]. rewrite Hc.
  unfold set_database, add_events, record_event, upsert_calls. cbn.
  rewrite <- !app_assoc. reflexivity.
Qed.

(** When SQLite refuses one of the calls, [upsert_devices] raises and
    the table is as it was. *)
Lemma upsert_devices_rolls_back (E : Env) (devices : list Device) (w : world) :
  sqlite_works E (trace w) (upsert_calls devices) = false ->
  exists e w', upsert_devices E devices w = (Raise e, w') /\ database w' = database w.
Proof.
  intros Hfail.
  unfold upsert_devices, with_connect. unfold bind at 1, get. unfold bind at 1, external.
  destruct (env_sqlite E (trace w)) as [[] | e] eqn:Hopen; [| eauto].
  unfold try_except.
  destruct (bind (upsert_each E devices) _ (record_event (EvUpsert devices) w))
    as [[[] | e] w1] eqn:Hbody.
  - exfalso. unfold upsert_calls in Hfail. cbn in Hfail. rewrite Hopen in Hfail.
    rewrite sqlite_works_app in Hfail.
    assert (Hloop : forall ds w0 r w0',
              bind (upsert_each E ds) (fun _ => external EvCommit (env_sqlite E)) w0
                = (Return r, w0') ->
              sqlite_works E (trace w0) (map EvInsert ds) = true /\
              sqlite_works E (trace w0 ++ map EvInsert ds) [EvCommit] = true).
    { induction ds as [| d0 ds IH]; intros w0 r w0' Hrun.
      - cbn in Hrun |- *. unfold bind, external in Hrun. cbn in Hrun.
        rewrite app_nil_r. destruct (env_sqlite E (trace w0)); [auto | discriminate].
      - cbn [upsert_each] in Hrun. unfold bind at 1 2 in Hrun.
        unfold execute_upsert, bind, get, external, modify in Hrun. cbn [map sqlite_works].
        destruct (env_sqlite E (trace w0)) as [[] |]; [| discriminate].
        change (match upsert_each E ds ?s with
                | (Return a, s') => ?k a s'
                | (Raise e0, s') => (Raise e0, s')
                end) with (bind (upsert_each E ds) k s) in Hrun.
        apply IH in Hrun. cbn [trace set_database record_event] in Hrun.
        destruct Hrun as [Ha Hb]. split; [exact Ha |].
        rewrite <- app_assoc in Hb. exact Hb. }
    destruct (Hloop _ _ _ _ Hbody) as [H1 H2].
    cbn [trace record_event] in H1, H2. rewrite H1, H2 in Hfail. discriminate.
  - cbn. eauto.
Qed.

(** C9. [upsert_devices] called twice in a row with the same device
    list, on a table keyed by name, with SQLite accepting every call
    and a clock that does not go back: both calls return; the table
    still has one row per name; every device of the list has exactly
    one row, after the first call and after the second, carrying the
    host and device type the list holds for that name (those of the
    device itself when the names of the list are distinct, of the last
    entry under that name otherwise) and as [last_backup] a time within
    the call that wrote it; and the second call changes nothing but
    [last_backup], row by row, which does not go back. *)
Theorem upsert_devices_twice (E : Env) (devices : list Device) (w : world) :
  List.NoDup (map row_name (database w)) ->
  clock_never_goes_back E ->
  sqlite_works E (trace w) (upsert_calls devices ++ upsert_calls devices) = true ->
  exists w1 w2,
    upsert_devices E devices w = (Return tt, w1) /\
    upsert_devices E devices w1 = (Return tt, w2) /\
    List.NoDup (map row_name (database w2)) /\
    (forall d, In d devices ->
       exists r1 r2 d',
         last_named (name d) devices = Some d' /\
         (List.NoDup (map name devices) -> d' = d) /\
         select_by_name (name d) (database w1) = [r1] /\
         select_by_name (name d) (database w2) = [r2] /\
         row_host r1 = host d' /\ row_device_type r1 = device_type d' /\
         row_host r2 = host d' /\ row_device_type r2 = device_type d' /\
         (env_now E (trace w) <= row_last_backup r1 <= env_now E (trace w1))%Z /\
         (env_now E (trace w1) <= row_last_backup r2 <= env_now E (trace w2))%Z) /\
    map forget_last_backup (database w2) = map forget_last_backup (database w1) /\
    Forall2 (fun r1 r2 => (row_last_backup r1 <= row_last_backup r2)%Z)
            (database w1) (database w2).
Proof.
  intros Hnd Hclock Hok.
  rewrite sqlite_works_app in Hok. apply andb_prop in Hok as [Hok1 Hok2].
  pose proof (upsert_devices_ok E devices w Hok1) as Hrun1.
  set (st1 := stamp_each E (trace w ++ [EvUpsert devices]) devices) in *.
  set (w1 := set_database (upsert_all st1) (add_events (upsert_calls devices) w)) in *.
  assert (Htr1 : trace w1 = trace w ++ upsert_calls devices) by reflexivity.
  rewrite <- Htr1 in Hok2.
  pose proof (upsert_devices_ok E devices w1 Hok2) as Hrun2.
  set (st2 := stamp_each E (trace w1 ++ [EvUpsert devices]) devices) in *.
  set (w2 := set_database (upsert_all st2) (add_events (upsert_calls devices) w1)) in *.
  assert (Htr2 : trace w2 = trace w1 ++ upsert_calls devices) by reflexivity.
  set (once := upsert_all st1 (database w)).
  set (twice := upsert_all st2 once).
  assert (Hdb1 : database w1 = once) by reflexivity.
  assert (Hdb2 : database w2 = twice) by reflexivity.
  assert (Hdev1 : map snd st1 = devices) by apply stamp_each_devices.
  assert (Hdev2 : map snd st2 = devices) by apply stamp_each_devices.
  assert (Hnd1 : List.NoDup (map row_name once)) by now apply upsert_all_NoDup.
  assert (Hnd2 : List.NoDup (map row_name twice)) by now apply upsert_all_NoDup.
  assert (Hcover : forall d, In d devices -> In (name d) (map row_name once)).
  { intros d Hd. apply upsert_all_names_cover. now rewrite Hdev1. }
  assert (Htwice : twice = map (refresh st2) once).
  { apply upsert_all_present_map; [exact Hnd1 |]. rewrite Hdev2. exact Hcover. }
  (* the times of the statements lie within their call *)
  assert (Hwin1 : forall x, In x st1 ->
            (env_now E (trace w) <= fst x <= env_now E (trace w1))%Z).
  { intros x Hx. pose proof (stamp_each_between E _ devices x Hclock Hx) as Hb.
    pose proof (Hclock (trace w) (EvUpsert devices)).
    rewrite Htr1. unfold upsert_calls.
    change (EvUpsert devices :: map EvInsert devices ++ [EvCommit])
      with ([EvUpsert devices] ++ map EvInsert devices ++ [EvCommit]).
    rewrite !app_assoc.
    pose proof (Hclock ((trace w ++ [EvUpsert devices]) ++ map EvInsert devices) EvCommit).
    lia. }
  assert (Hwin2 : forall x, In x st2 ->
            (env_now E (trace w1) <= fst x <= env_now E (trace w2))%Z).
  { intros x Hx. pose proof (stamp_each_between E _ devices x Hclock Hx) as Hb.
    pose proof (Hclock (trace w1) (EvUpsert devices)).
    rewrite Htr2. unfold upsert_calls.
    change (EvUpsert devices :: map EvInsert devices ++ [EvCommit])
      with ([EvUpsert devices] ++ map EvInsert devices ++ [EvCommit]).
    rewrite !app_assoc.
    pose proof (Hclock ((trace w1 ++ [EvUpsert devices]) ++ map EvInsert devices) EvCommit).
    lia. }
  (* what a row under a name of the list carries *)
  assert (Hrow : forall st table r d',
            map snd st = devices ->
            List.NoDup (map row_name table) ->
            In r (upsert_all st table) ->
            last_named (row_name r) devices = Some d' ->
            row_host r = host d' /\ row_device_type r = device_type d' /\
            exists x, In x st /\ row_last_backup r = fst x).
  { intros st table r d' Hst Hndt Hin Hl.
    rewrite <- Hst, last_stamped_named in Hl.
    destruct (last_stamped (row_name r) st) as [[now d0] |] eqn:Hls; [| discriminate].
    cbn in Hl. injection Hl as ->.
    destruct (upsert_all_agrees st table r now d' Hndt Hin Hls) as (Hh & Ht & Hb).
    split; [exact Hh |]. split; [exact Ht |].
    exists (now, d'). split; [| exact Hb]. now apply (last_stamped_name _ _ _ Hls). }
  exists w1, w2. split; [exact Hrun1 |]. split; [exact Hrun2 |].
  rewrite Hdb1, Hdb2. split; [exact Hnd2 |]. split; [| split].
  - intros d Hd.
    destruct (last_named_in devices d Hd) as [d' Hl].
    destruct (select_by_name_unique (name d) once Hnd1 (Hcover d Hd))
      as (r1 & Hsel1 & Hin1 & Hname1).
    assert (Hin2n : In (name d) (map row_name twice))
      by (apply upsert_all_names_grow; now apply Hcover).
    destruct (select_by_name_unique (name d) twice Hnd2 Hin2n)
      as (r2 & Hsel2 & Hin2 & Hname2).
    rewrite <- Hname1 in Hl.
    destruct (Hrow st1 (database w) r1 d' Hdev1 Hnd Hin1 Hl) as (Hh1 & Ht1 & x1 & Hx1 & Hb1).
    rewrite Hname1, <- Hname2 in Hl.
    destruct (Hrow st2 once r2 d' Hdev2 Hnd1 Hin2 Hl) as (Hh2 & Ht2 & x2 & Hx2 & Hb2).
    rewrite Hname2 in Hl.
    exists r1, r2, d'.
    split; [exact Hl |].
    split; [intros Hdistinct; now apply (last_named_unique devices d d') |].
    split; [exact Hsel1 |]. split; [exact Hsel2 |].
    split; [exact Hh1 |]. split; [exact Ht1 |]. split; [exact Hh2 |]. split; [exact Ht2 |].
    split.
    + rewrite Hb1. now apply Hwin1.
    + rewrite Hb2. now apply Hwin2.
  - rewrite Htwice, map_map. apply map_ext_in. intros r Hr.
    unfold refresh. destruct (last_stamped (row_name r) st2) as [[now d] |] eqn:Hl;
      [| reflexivity].
    assert (Hl1 : last_named (row_name r) devices = Some d).
    { rewrite <- Hdev2, last_stamped_named, Hl. reflexivity. }
    destruct (Hrow st1 (database w) r d Hdev1 Hnd Hr Hl1) as (Hh & Ht & _).
    unfold forget_last_backup. cbn. now rewrite Hh, Ht.
  - rewrite Htwice.
    assert (Hall : forall r, In r once ->
              (row_last_backup r <= row_last_backup (refresh st2 r))%Z).
    { intros r Hr. unfold refresh.
      destruct (last_stamped (row_name r) st2) as [[now d] |] eqn:Hl; [| lia].
      assert (Hl1 : last_named (row_name r) devices = Some d).
      { rewrite <- Hdev2, last_stamped_named, Hl. reflexivity. }
      destruct (Hrow st1 (database w) r d Hdev1 Hnd Hr Hl1) as (_ & _ & x1 & Hx1 & Hb).
      destruct (last_stamped_name _ _ _ Hl) as [_ Hx2].
      pose proof (Hwin1 x1 Hx1). pose proof (Hwin2 (now, d) Hx2).
      cbn [row_last_backup fst] in *. lia. }
    apply Forall2_map_self. exact Hall.
Qed.

End DeviceDatabaseSpec.

(* ================================================================== *)
(** * The run and the staleness sweep *)
(* ================================================================== *)

Module SweepSpec.
Import PluginManagerImpl BackupEngine BackupScheduler FrameRules RunSpec.

Lemma keeps_weaken {A} (R Q : world -> world -> Prop) (c : M world A) :
  (forall w w', R w w' -> Q w w') -> keeps R c -> keeps Q c.
Proof. intros HRQ Hc w. apply HRQ, Hc. Qed.

Lemma setup_not_sweep (ev : event) : is_setup_call ev = true -> not_sweep ev = true.
Proof. destruct ev; cbn; congruence. Qed.

Lemma rows_persist_refl (w : world) : rows_persist w w.
Proof. intros r Hr. eauto. Qed.

Lemma rows_persist_trans (w1 w2 w3 : world) :
  rows_persist w1 w2 -> rows_persist w2 w3 -> rows_persist w1 w3.
Proof.
  intros H12 H23 r Hr. destruct (H12 r Hr) as (r2 & Hr2 & Hn2).
  destruct (H23 r2 Hr2) as (r3 & Hr3 & Hn3). exists r3. split; [exact Hr3 | congruence].
Qed.

Lemma same_database_persist (w w' : world) : same_database w w' -> rows_persist w w'.
Proof. intros Hsame r Hr. exists r. rewrite Hsame. auto. Qed.

(** A worker's outcome kept in its future. *)
Lemma keeps_capture {A} (R : world -> world -> Prop) (c : M world A) :
  keeps R c ->
  keeps R (fun w => match c w with (r, w') => (Return r, w') end).
Proof. intros Hc w. specialize (Hc w). destruct (c w) as [r w']. exact Hc. Qed.

Section Calls.
Variable E : Env.
Variable R : world -> world -> Prop.
Hypothesis R_refl : forall w, R w w.
Hypothesis R_trans : forall w1 w2 w3, R w1 w2 -> R w2 w3 -> R w1 w3.
Hypothesis R_fresh : keeps R fresh.
Hypothesis R_cache_input : forall t inst, keeps R (cache_input t inst).
Hypothesis R_cache_output : forall t inst, keeps R (cache_output t inst).
Hypothesis R_cache_model : forall t m, keeps R (cache_model t m).
Hypothesis R_event : forall ev, is_sweep ev = false -> forall w, R w (record_event ev w).

Ltac step := frame R_refl R_trans.

Lemma external_R {A} (ev : event) (ans : list event -> result A) :
  is_sweep ev = false -> keeps R (external ev ans).
Proof. intros Hev w. now apply R_event. Qed.

Lemma construct_R (k : module_class) (c : cfg) : keeps R (construct E k c).
Proof. unfold construct, new_instance. step. now apply external_R. Qed.

Lemma load_input_module_R (t : string) (c : cfg) : keeps R (load_input_module E t c).
Proof. unfold load_input_module. pose proof construct_R. step. Qed.

Lemma load_output_module_R (t : string) (c : cfg) : keeps R (load_output_module E t c).
Proof. unfold load_output_module. pose proof construct_R. step. Qed.

Lemma load_devices_R (sources : list entry) (acc : list Device) :
  keeps R (load_devices E sources acc).
Proof.
  pose proof load_input_module_R.
  revert acc. induction sources as [| source rest IH]; intros acc; cbn [load_devices]; step.
  now apply external_R.
Qed.

Lemma load_outputs_R (dests : list entry) (acc : list instance) :
  keeps R (load_outputs E dests acc).
Proof.
  pose proof load_output_module_R.
  revert acc. induction dests as [| dest rest IH]; intros acc; cbn [load_outputs]; step.
Qed.

Lemma instantiate_model_R (c : model_class) : keeps R (instantiate_model c).
Proof. unfold instantiate_model. step. Qed.

Lemma scan_models_R (cn t : string) (files : list (string * list (string * model_class))) :
  keeps R (scan_models cn t files).
Proof.
  pose proof instantiate_model_R.
  induction files as [| [stem module] rest IH]; cbn [scan_models]; step.
Qed.

Lemma get_device_model_R (t : string) : keeps R (get_device_model E t).
Proof.
  pose proof instantiate_model_R. pose proof scan_models_R.
  unfold get_device_model. step.
Qed.

Lemma send_commands_R (d : Device) (cmds acc : list string) :
  keeps R (send_commands E d cmds acc).
Proof.
  revert acc. induction cmds as [| cmd rest IH]; intros acc; cbn [send_commands]; step.
  now apply external_R.
Qed.

Lemma with_ConnectHandler_R {A} (d : Device) (body : M world A) :
  keeps R body -> keeps R (with_ConnectHandler E d body).
Proof.
  intros Hbody. unfold with_ConnectHandler. apply (keeps_bind R_trans).
  - now apply external_R.
  - intros _ w. specialize (Hbody w). destruct (body w) as [r w']. cbn in *.
    eapply R_trans; [exact Hbody | now apply R_event].
Qed.

Lemma backup_device_R (d : Device) (m : model) : keeps R (backup_device E d m).
Proof.
  unfold backup_device. apply (keeps_try_except R_trans).
  - apply with_ConnectHandler_R. pose proof send_commands_R. step.
  - intros e. step.
Qed.

Lemma save_to_outputs_R (d : Device) (config : string) (oms : list instance) :
  keeps R (save_to_outputs E d config oms).
Proof.
  induction oms as [| om rest IH]; cbn [save_to_outputs]; step. now apply external_R.
Qed.

Lemma backup_single_device_R (d : Device) (oms : list instance) :
  keeps R (_backup_single_device E d oms).
Proof.
  pose proof get_device_model_R. pose proof backup_device_R. pose proof save_to_outputs_R.
  unfold _backup_single_device. step.
Qed.

Lemma submit_all_R (devices : list Device) (oms : list instance) :
  keeps R (submit_all E devices oms).
Proof.
  induction devices as [| d rest IH]; cbn [submit_all].
  - step.
  - apply (keeps_bind R_trans); [apply keeps_capture, backup_single_device_R |].
    intros r. step.
Qed.

Lemma collect_R (futures : list (result (option string))) (res : results) (acc : list string) :
  keeps R (collect futures res acc).
Proof.
  revert res acc. induction futures as [| f rest IH]; intros res acc; cbn [collect]; step.
Qed.

Lemma stamp_last_run_R : (forall t w, R w (set_last_run t w)) -> keeps R (stamp_last_run E).
Proof. intros Hstamp w. apply Hstamp. Qed.

(** A run, given what its one database write does. *)
Lemma run_backup_R :
  (forall t w, R w (set_last_run t w)) ->
  (forall devices, keeps R (DeviceDatabase.upsert_devices E devices)) ->
  forall config, keeps R (run_backup E config).
Proof.
  intros Hstamp Hupsert config.
  pose proof load_devices_R. pose proof load_outputs_R.
  pose proof submit_all_R. pose proof collect_R. pose proof (stamp_last_run_R Hstamp).
  unfold run_backup, run_backup_try, ThreadPoolExecutor. step.
Qed.

End Calls.

(** The calls of [upsert_devices] are its own. *)
Lemma upsert_devices_calls (E : Env) (P : event -> bool) (devices : list Device) :
  P (EvUpsert devices) = true -> (forall d, P (EvInsert d) = true) -> P EvCommit = true ->
  keeps (calls_only P) (DeviceDatabase.upsert_devices E devices).
Proof.
  intros Hopen Hinsert Hcommit.
  assert (Hloop : forall ds, keeps (calls_only P) (DeviceDatabase.upsert_each E ds)).
  { induction ds as [| d ds IH]; cbn [DeviceDatabase.upsert_each].
    - calls_frame P.
    - unfold DeviceDatabase.execute_upsert. calls_frame P.
      apply external_calls, Hinsert. }
  unfold DeviceDatabase.upsert_devices, DeviceDatabase.with_connect. calls_frame P.
  - now apply external_calls.
  - now apply external_calls.
Qed.

(** Statements keep every row's name in the table. *)
Lemma upsert_all_persist (stamped : list (Z * Device)) (table : list row) (r : row) :
  In r table ->
  exists r', In r' (upsert_all stamped table) /\ row_name r' = row_name r.
Proof.
  intros Hr.
  assert (Hn : In (row_name r) (map row_name (upsert_all stamped table))).
  { apply DeviceDatabaseSpec.upsert_all_names_grow. now apply in_map. }
  apply in_map_iff in Hn as (r' & Hname & Hr'). eauto.
Qed.

(** Whether it commits or rolls back, [upsert_devices] removes no row. *)
Lemma upsert_devices_persist (E : Env) (devices : list Device) :
  keeps rows_persist (DeviceDatabase.upsert_devices E devices).
Proof.
  intros w. destruct (sqlite_works E (trace w) (upsert_calls devices)) eqn:Hok.
  - rewrite (DeviceDatabaseSpec.upsert_devices_ok E devices w Hok). cbn.
    intros r Hr. now apply upsert_all_persist.
  - destruct (DeviceDatabaseSpec.upsert_devices_rolls_back E devices w Hok)
      as (e & w' & Hrun & Hdb).
    rewrite Hrun. cbn. now apply same_database_persist.
Qed.

(** For every environment, configuration and state, a backup run makes
    no staleness sweep, and no row leaves the device cache. *)
Lemma run_backup_never_sweeps (E : Env) (config : Config) (w : world) :
  calls_only not_sweep w (snd (run_backup E config w)) /\
  rows_persist w (snd (run_backup E config w)).
Proof.
  split.
  - apply (run_backup_R E (calls_only not_sweep)).
    + apply calls_only_refl.
    + apply calls_only_trans.
    + apply fresh_calls.
    + intros t inst. apply set_plugin_manager_calls.
    + intros t inst. apply set_plugin_manager_calls.
    + intros t m. apply set_plugin_manager_calls.
    + intros ev Hev w0. exists [ev]. split; [reflexivity |].
      cbn. unfold not_sweep. now rewrite Hev.
    + intros t w0. exists []. cbn. now rewrite app_nil_r.
    + intros devices. now apply upsert_devices_calls.
  - apply (run_backup_R E rows_persist).
    + apply rows_persist_refl.
    + apply rows_persist_trans.
    + intros w0. now apply same_database_persist.
    + intros t inst w0. now apply same_database_persist.
    + intros t inst w0. now apply same_database_persist.
    + intros t m w0. now apply same_database_persist.
    + intros ev _ w0. now apply same_database_persist.
    + intros t w0. now apply same_database_persist.
    + apply upsert_devices_persist.
Qed.

(** C3, as the code has it. With a device cache holding a row last
    refreshed more than 24 hours before the clock, a backup run over an
    inventory that no longer lists the device succeeds for the listed
    device, makes no sweep call and leaves the stale row in the cache;
    [sync_devices], from the same state, removes it. *)
Theorem run_backup_keeps_stale_device :
  let E := Samples.quiet_env in
  let w' := snd (run_backup E Samples.sample_config Samples.stale_world) in
  (row_last_backup Samples.stale_row < env_now E [] - 24 * 3600)%Z /\
  fst (run_backup E Samples.sample_config Samples.stale_world) =
    Return {| success := 1; failed := 0; total := 1 |} /\
  forallb not_sweep (trace w') = true /\
  map row_name (database w') = ["old-router"; "sw1"] /\
  In Samples.stale_row (database w') /\
  map row_name (database (snd (sync_devices E Samples.sample_config Samples.stale_world)))
    = ["sw1"].
Proof.
  cbv zeta. split; [reflexivity |]. split; [vm_compute; reflexivity |].
  split; [vm_compute; reflexivity |]. split; [vm_compute; reflexivity |].
  split; [vm_compute; left; reflexivity | vm_compute; reflexivity].
Qed.

End SweepSpec.

(* ================================================================== *)
(** * The workers of a run *)
(* ================================================================== *)

Module WorkersSpec.
Import PluginManagerImpl BackupEngine BackupScheduler FrameRules RunSpec.

(** ** Counting *)

Lemma named_app (a b : list (option string)) : named (a ++ b) = named a + named b.
Proof. unfold named. now rewrite List.filter_app, length_app. Qed.

Lemma unnamed_app (a b : list (option string)) : unnamed (a ++ b) = unnamed a + unnamed b.
Proof. unfold unnamed. now rewrite List.filter_app, length_app. Qed.

Lemma named_unnamed (names : list (option string)) :
  named names + unnamed names = length names.
Proof.
  unfold named, unnamed. induction names as [| n rest IH]; cbn; [reflexivity |].
  destruct (truthy_str n); cbn; lia.
Qed.

(** The counting loop over futures that all hold a value. *)
Lemma collect_exact (names : list (option string)) (res : results) (acc : list string)
    (w : world) :
  collect (map Return names) res acc w =
    (Return {| success := success res + named names;
               failed := failed res + unnamed names;
               total := total res |}, w).
Proof.
  revert res acc. induction names as [| n rest IH]; intros res acc; cbn [collect map].
  - unfold named, unnamed. cbn. destruct res as [s f t]. cbn.
    now rewrite !Nat.add_0_r.
  - unfold bind, lift. unfold named, unnamed in *. cbn [List.filter].
    destruct (truthy_str n); cbn [negb length].
    + rewrite IH. cbn [success failed total].
      match goal with
      | |- (Return ?a, _) = (Return ?b, _) => assert (a = b) as ->; [| reflexivity]
      end.
      f_equal; lia.
    + rewrite IH. cbn [success failed total].
      match goal with
      | |- (Return ?a, _) = (Return ?b, _) => assert (a = b) as ->; [| reflexivity]
      end.
      f_equal; lia.
Qed.

(** ** The futures *)

Lemma values_of_returned (names : list (option string)) :
  map (fun f : result (option string) => match f with Return n => n | Raise _ => None end)
      (map Return names) = names.
Proof. induction names as [| n ns IH]; cbn; [| rewrite IH]; reflexivity. Qed.

Lemma worker_names_returned (E : Env) (devices : list Device) (oms : list instance)
    (w : world) :
  submit_all E devices oms w =
    (Return (map Return (worker_names E devices oms w)), snd (submit_all E devices oms w)) /\
  length (worker_names E devices oms w) = length devices.
Proof.
  destruct (submit_all_returns E devices oms w) as (names & w' & Hsub & Hlen).
  unfold worker_names. rewrite Hsub. cbn [fst snd].
  rewrite values_of_returned. split; [reflexivity | exact Hlen].
Qed.

(** The first worker runs, then the others from the state it leaves. *)
Lemma worker_names_cons (E : Env) (d : Device) (rest : list Device) (oms : list instance)
    (w w1 : world) (r : option string) :
  _backup_single_device E d oms w = (Return r, w1) ->
  worker_names E (d :: rest) oms w = r :: worker_names E rest oms w1 /\
  snd (submit_all E (d :: rest) oms w) = snd (submit_all E rest oms w1).
Proof.
  intros Hrun. unfold worker_names. cbn [submit_all]. unfold bind at 1 3. rewrite Hrun.
  unfold bind.
  destruct (submit_all_returns E rest oms w1) as (names & w2 & Hsub & _).
  rewrite Hsub. cbn. split; reflexivity.
Qed.

Lemma submit_all_app (E : Env) (a b : list Device) (oms : list instance) (w : world) :
  worker_names E (a ++ b) oms w =
    worker_names E a oms w ++ worker_names E b oms (snd (submit_all E a oms w)) /\
  snd (submit_all E (a ++ b) oms w) = snd (submit_all E b oms (snd (submit_all E a oms w))).
Proof.
  revert w. induction a as [| d a IH]; intros w.
  - split; reflexivity.
  - destruct (backup_single_device_total E d oms w) as (r & w1 & Hrun).
    destruct (worker_names_cons E d (a ++ b) oms w w1 r Hrun) as [Hn1 Hs1].
    destruct (worker_names_cons E d a oms w w1 r Hrun) as [Hn2 Hs2].
    destruct (IH w1) as [IHn IHs].
    change ((d :: a) ++ b) with (d :: a ++ b).
    rewrite Hn1, Hs1, Hn2, Hs2, IHn, IHs. split; reflexivity.
Qed.

(** ** The sinks a run writes to *)

Lemma load_outputs_in_order (E : Env) (dests : list entry) (acc : list instance) (w : world) :
  load_outputs E dests acc w =
    (Return (acc ++ sinks_in_order E dests w), snd (load_outputs E dests acc w)).
Proof.
  revert acc w. induction dests as [| dest rest IH]; intros acc w; cbn [load_outputs].
  - cbn. now rewrite app_nil_r.
  - unfold bind at 1 2. unfold try_except at 1 2. unfold bind at 1 2.
    cbn [sinks_in_order].
    destruct (load_output_module E (entry_type dest) (entry_config dest) w)
      as [[sink | e] w1]; cbn [ret].
    + rewrite IH. cbn [snd]. now rewrite <- app_assoc.
    + rewrite IH. reflexivity.
Qed.

Lemma outputs_loaded_in_order (E : Env) (config : Config) (w : world) :
  outputs_loaded E config w =
    sinks_in_order E (output config) (after_load_devices E config w).
Proof.
  unfold outputs_loaded, after_load_devices. cbv zeta.
  rewrite load_outputs_in_order. reflexivity.
Qed.

(** ** The model cache holds concrete models throughout a run *)

Lemma same_models_refl (w : world) : same_models w w.
Proof. reflexivity. Qed.

Lemma same_models_trans (w1 w2 w3 : world) :
  same_models w1 w2 -> same_models w2 w3 -> same_models w1 w3.
Proof. unfold same_models. congruence. Qed.

Lemma same_registry_refl (w : world) : same_registry w w.
Proof. reflexivity. Qed.

Lemma same_registry_trans (w1 w2 w3 : world) :
  same_registry w1 w2 -> same_registry w2 w3 -> same_registry w1 w3.
Proof. unfold same_registry. congruence. Qed.

Lemma same_models_concrete (w w' : world) :
  same_models w w' -> models_concrete w -> models_concrete w'.
Proof. intros Hsame Hw t m. rewrite Hsame. apply Hw. Qed.

Lemma load_devices_models (E : Env) (sources : list entry) (acc : list Device) :
  keeps same_models (load_devices E sources acc).
Proof.
  apply (SweepSpec.load_devices_R E same_models same_models_refl same_models_trans).
  - intros w. reflexivity.
  - intros t inst w. reflexivity.
  - intros ev _ w. reflexivity.
Qed.

Lemma load_outputs_models (E : Env) (dests : list entry) (acc : list instance) :
  keeps same_models (load_outputs E dests acc).
Proof.
  apply (SweepSpec.load_outputs_R E same_models same_models_refl same_models_trans).
  - intros w. reflexivity.
  - intros t inst w. reflexivity.
  - intros ev _ w. reflexivity.
Qed.

Lemma backup_single_device_concrete (E : Env) (d : Device) (oms : list instance) (w : world) :
  models_concrete w -> models_concrete (snd (_backup_single_device E d oms w)).
Proof.
  intros Hw. unfold _backup_single_device, try_except, bind.
  destruct (get_device_model E (device_type d) w) as [[m | e] w1] eqn:Hmodel.
  - destruct (UnitOfWorkSpec.get_device_model_concrete E _ w w1 m Hw Hmodel)
      as (_ & Hw1 & _).
    pose proof (SweepSpec.backup_device_R E same_registry same_registry_refl
                  same_registry_trans (fun ev _ w0 => eq_refl) d m w1) as Hsame.
    destruct (backup_device E d m w1) as [[config | e] w2]; cbn [snd] in Hsame.
    + assert (Hw2 : models_concrete w2).
      { intros t m'. rewrite Hsame. apply Hw1. }
      destruct (truthy_str config); cbn; [| exact Hw2].
      rewrite UnitOfWorkSpec.save_to_outputs_spec. cbn. exact Hw2.
    + cbn. intros t m'. rewrite Hsame. apply Hw1.
  - destruct (UnitOfWorkSpec.get_device_model_cases E (device_type d) w)
      as [(m0 & _ & Heq) | [(c & _ & Heq) | (e' & Heq)]];
      rewrite Heq in Hmodel; try discriminate.
    injection Hmodel as _ <-. cbn. exact Hw.
Qed.

Lemma submit_all_concrete (E : Env) (devices : list Device) (oms : list instance) (w : world) :
  models_concrete w -> models_concrete (snd (submit_all E devices oms w)).
Proof.
  revert w. induction devices as [| d rest IH]; intros w Hw; [exact Hw |].
  destruct (backup_single_device_total E d oms w) as (r & w1 & Hrun).
  destruct (worker_names_cons E d rest oms w w1 r Hrun) as [_ Hs]. rewrite Hs.
  apply IH. pose proof (backup_single_device_concrete E d oms w Hw) as Hc.
  now rewrite Hrun in Hc.
Qed.

(** Every worker of a run starts with concrete models in the cache. *)
Lemma worker_start_concrete (E : Env) (config : Config) (w : world) (before : list Device) :
  models_concrete w -> models_concrete (worker_start E config w before).
Proof.
  intros Hw. unfold worker_start. apply submit_all_concrete.
  unfold after_load_outputs.
  apply (same_models_concrete _ _ (load_outputs_models E (output config) [] _)).
  unfold after_load_devices.
  apply (same_models_concrete _ _ (load_devices_models E (input config) [] _)).
  exact Hw.
Qed.

(** ** A run up to its database write *)

Lemma run_backup_try_to_upsert (E : Env) (config : Config) (w : world) :
  devices_loaded E config w <> [] ->
  outputs_loaded E config w <> [] ->
  (0 < max_workers config)%Z ->
  run_backup_try E config (stamped E w) =
    bind (DeviceDatabase.upsert_devices E (devices_loaded E config w))
         (fun _ => ret {| success := named (workers_of_run E config w);
                          failed := unnamed (workers_of_run E config w);
                          total := length (devices_loaded E config w) |})
         (after_workers E config w).
Proof.
  intros Hdevs Houts Hworkers.
  pose proof (load_devices_loaded E config w) as Hdev.
  pose proof (load_outputs_loaded E config w) as Hout. cbn zeta in Hout.
  unfold run_backup_try. unfold bind at 1. rewrite Hdev.
  destruct (devices_loaded E config w) as [| d ds] eqn:Hds; [congruence |].
  cbn [truthy_list negb]. unfold bind at 1. rewrite Hout.
  destruct (outputs_loaded E config w) as [| om oms] eqn:Homs; [congruence |].
  cbn [truthy_list negb]. unfold bind at 1. unfold ThreadPoolExecutor.
  destruct (max_workers config <=? 0)%Z eqn:Hle; [lia |].
  unfold bind at 1.
  destruct (worker_names_returned E (d :: ds) (om :: oms)
              (snd (load_outputs E (output config) []
                      (snd (load_devices E (input config) [] (stamped E w))))))
    as [Hsub _].
  rewrite Hsub. rewrite collect_exact. cbn [success failed total].
  unfold workers_of_run, after_workers, worker_start, after_load_outputs, after_load_devices.
  rewrite Hds, Homs. reflexivity.
Qed.

(** A run with devices, output modules, a worker pool and a database
    that accepts the final write. *)
Lemma run_backup_completes (E : Env) (config : Config) (w : world) :
  devices_loaded E config w <> [] ->
  outputs_loaded E config w <> [] ->
  (0 < max_workers config)%Z ->
  sqlite_works E (trace (after_workers E config w))
    (upsert_calls (devices_loaded E config w)) = true ->
  run_backup E config w =
    (Return {| success := named (workers_of_run E config w);
               failed := unnamed (workers_of_run E config w);
               total := length (devices_loaded E config w) |},
     set_database
       (upsert_all (stamp_each E (trace (after_workers E config w)
                                    ++ [EvUpsert (devices_loaded E config w)])
                      (devices_loaded E config w)))
       (add_events (upsert_calls (devices_loaded E config w)) (after_workers E config w))).
Proof.
  intros Hdevs Houts Hworkers Hsql.
  assert (Hunfold : run_backup E config w =
                    try_except (run_backup_try E config)
                      (fun _ => ret {| success := 0; failed := 0; total := 0 |})
                      (stamped E w)) by reflexivity.
  rewrite Hunfold. unfold try_except.
  rewrite (run_backup_try_to_upsert E config w Hdevs Houts Hworkers).
  unfold bind at 1.
  rewrite (DeviceDatabaseSpec.upsert_devices_ok E _ _ Hsql). reflexivity.
Qed.

End WorkersSpec.

(* ================================================================== *)
(** * The fan-out to the sinks within a run *)
(* ================================================================== *)

Module FanOutSpec.
Import PluginManagerImpl BackupEngine BackupScheduler WorkersSpec.

(** C4, as amended. In a run that loads devices and output modules, has
    a worker pool and ends with an accepted database write, take a
    device [d] of the inventory whose snapshot is obtained by its
    worker.  The output modules of the run are the sinks of the
    configuration in configuration order, those that do not resolve
    left out.  The worker calls [save_backup] with the snapshot on each
    of them, one call per module in that order and nothing else,
    whatever the sinks answer, and returns the device's name.  The run
    then counts the device once: under [success] when its name is not
    empty, under [failed] when it is. *)
Theorem sink_failures_do_not_demote (E : Env) (config : Config) (w : world)
    (before after : list Device) (d : Device) (snapshot : string) (w2 : world) :
  models_concrete w ->
  devices_loaded E config w = before ++ d :: after ->
  outputs_loaded E config w <> [] ->
  (0 < max_workers config)%Z ->
  sqlite_works E (trace (after_workers E config w))
    (upsert_calls (devices_loaded E config w)) = true ->
  snapshot_obtained E d (worker_start E config w before) snapshot w2 ->
  outputs_loaded E config w =
    sinks_in_order E (output config) (after_load_devices E config w) /\
  _backup_single_device E d (outputs_loaded E config w) (worker_start E config w before) =
    (Return (Some (name d)), worker_start E config w (before ++ [d])) /\
  trace (worker_start E config w (before ++ [d])) =
    trace w2 ++ map (fun sink => EvSaveBackup sink d snapshot) (outputs_loaded E config w) /\
  exists earlier later res w',
    workers_of_run E config w = earlier ++ Some (name d) :: later /\
    length earlier = length before /\
    run_backup E config w = (Return res, w') /\
    total res = length (devices_loaded E config w) /\
    (name d <> "" ->
     success res = named earlier + 1 + named later /\
     failed res = unnamed earlier + unnamed later) /\
    (name d = "" ->
     success res = named earlier + named later /\
     failed res = unnamed earlier + 1 + unnamed later).
Proof.
  intros Hw Hdevs Houts Hworkers Hsql Hobt.
  set (oms := outputs_loaded E config w) in *.
  set (w0 := after_load_outputs E config w).
  pose proof (worker_start_concrete E config w before Hw) as Hstart.
  pose proof (UnitOfWorkSpec.backup_single_device_obtained E d oms _ w2 snapshot Hstart Hobt)
    as Hrun.
  change (worker_start E config w before) with (snd (submit_all E before oms w0)) in *.
  (* the state after the worker of [d] *)
  assert (Hnext : worker_start E config w (before ++ [d]) =
                  add_events (map (fun sink => EvSaveBackup sink d snapshot) oms) w2).
  { change (worker_start E config w (before ++ [d]))
      with (snd (submit_all E (before ++ [d]) oms w0)).
    destruct (submit_all_app E before [d] oms w0) as [_ ->].
    destruct (worker_names_cons E d [] oms _ _ _ Hrun) as [_ ->]. reflexivity. }
  split; [apply outputs_loaded_in_order |].
  split; [rewrite Hnext; exact Hrun |].
  split; [rewrite Hnext; reflexivity |].
  exists (worker_names E before oms w0),
         (worker_names E after oms (worker_start E config w (before ++ [d]))).
  eexists _, _.
  assert (Hws : workers_of_run E config w =
                worker_names E before oms w0 ++
                Some (name d) :: worker_names E after oms (worker_start E config w (before ++ [d]))).
  { unfold workers_of_run. fold oms. fold w0. rewrite Hdevs.
    destruct (submit_all_app E before (d :: after) oms w0) as [-> _].
    f_equal.
    destruct (worker_names_cons E d after oms _ _ _ Hrun) as [-> _].
    rewrite Hnext. reflexivity. }
  split; [exact Hws |].
  split; [apply (worker_names_returned E before oms w0) |].
  assert (Hne : devices_loaded E config w <> [])
    by (rewrite Hdevs; destruct before; discriminate).
  split; [apply (run_backup_completes E config w Hne Houts Hworkers Hsql) |].
  cbn [success failed total]. rewrite Hws.
  change (?a ++ ?x :: ?b) with (a ++ [x] ++ b).
  rewrite !named_app, !unnamed_app. unfold named at 2, unnamed at 2. cbn [List.filter].
  split; [reflexivity |]. split.
  - intros Hname.
    assert (Htruthy : truthy_str (Some (name d)) = true)
      by (destruct (name d); [congruence | reflexivity]).
    rewrite Htruthy. cbn. split; lia.
  - intros Hname. rewrite Hname. cbn. split; lia.
Qed.

End FanOutSpec.

(* ================================================================== *)
(** * Properties of the filesystem sink *)
(* ================================================================== *)

Module FilesystemSpec.
Import FilesystemOutput RotationVocabulary StringFacts.

(** ** File names *)

Lemma latest_is_filename (n : string) : latest_name n = backup_filename n "latest".
Proof. reflexivity. Qed.

Lemma backup_filename_inj (n s1 s2 : string) :
  backup_filename n s1 = backup_filename n s2 -> s1 = s2.
Proof.
  unfold backup_filename. intros Heq.
  apply append_inj_l in Heq. apply (append_inj_l "_") in Heq.
  now apply append_inj_r in Heq.
Qed.

Lemma backup_filename_matches (n s : string) :
  matches_backup_glob n (backup_filename n s) = true.
Proof.
  unfold matches_backup_glob, backup_filename, startswith.
  rewrite <- (append_assoc n "_"), prefix_append.
  rewrite <- (append_assoc (n +:+ "_") s ".cfg"), endswith_append.
  rewrite !length_append. cbn [String.length].
  rewrite !andb_true_r. apply Nat.leb_le. lia.
Qed.

Lemma filename_eqb (n s1 s2 : string) :
  String.eqb (backup_filename n s1) (backup_filename n s2) = String.eqb s1 s2.
Proof.
  destruct (String.eqb_spec s1 s2) as [-> | Hne].
  - apply String.eqb_refl.
  - apply String.eqb_neq. intros Heq. apply Hne. now apply backup_filename_inj in Heq.
Qed.

(** ** Directories *)

Lemma lookup_put_same {A} (k : string) (v : A) (l : list (string * A)) :
  lookup_entry k (put_entry k v l) = Some v.
Proof.
  induction l as [| [k0 v0] rest IH]; cbn.
  - now rewrite String.eqb_refl.
  - destruct (String.eqb_spec k0 k) as [-> | Hne]; cbn.
    + now rewrite String.eqb_refl.
    + apply String.eqb_neq in Hne. now rewrite Hne.
Qed.

Lemma put_fresh {A} (k : string) (v : A) (l : list (string * A)) :
  lookup_entry k l = None -> put_entry k v l = l ++ [(k, v)].
Proof.
  induction l as [| [k0 v0] rest IH]; cbn; [reflexivity |].
  destruct (String.eqb k0 k); [discriminate |]. intros Hnone. now rewrite IH.
Qed.

Lemma listing_put (dir : string) (d : directory) (fs : filesystem) :
  listing dir (put_entry dir d fs) = d.
Proof. unfold listing. now rewrite lookup_put_same. Qed.

Lemma lookup_app_none {A} (k : string) (l l' : list (string * A)) :
  lookup_entry k l = None -> lookup_entry k (l ++ l') = lookup_entry k l'.
Proof.
  induction l as [| [k0 v0] rest IH]; cbn; [reflexivity |].
  destruct (String.eqb k0 k); [discriminate | exact IH].
Qed.

Lemma lookup_app_some {A} (k : string) (v : A) (l l' : list (string * A)) :
  lookup_entry k l = Some v -> lookup_entry k (l ++ l') = Some v.
Proof.
  induction l as [| [k0 v0] rest IH]; cbn; [discriminate |].
  destruct (String.eqb k0 k); [auto | exact IH].
Qed.

Lemma lookup_none_notin {A} (k : string) (l : list (string * A)) :
  lookup_entry k l = None <-> ~ In k (map fst l).
Proof.
  induction l as [| [k0 v0] rest IH]; cbn.
  - tauto.
  - destruct (String.eqb_spec k0 k) as [-> | Hne].
    + split; [discriminate | intros H; exfalso; apply H; now left].
    + rewrite IH. tauto.
Qed.

Lemma lookup_in {A} (k : string) (v : A) (l : list (string * A)) :
  List.NoDup (map fst l) -> In (k, v) l -> lookup_entry k l = Some v.
Proof.
  induction l as [| [k0 v0] rest IH]; cbn; intros Hnd Hin; [contradiction |].
  apply List.NoDup_cons_iff in Hnd as [Hfresh Hnd].
  destruct Hin as [[= -> ->] | Hin].
  - now rewrite String.eqb_refl.
  - destruct (String.eqb_spec k0 k) as [-> | Hne]; [| now apply IH].
    exfalso. apply Hfresh. apply in_map_iff. exists (k, v). auto.
Qed.

Lemma remove_notin {A} (k : string) (l : list (string * A)) :
  ~ In k (map fst l) -> remove_entry k l = l.
Proof.
  induction l as [| [k0 v0] rest IH]; cbn; intros Hnot; [reflexivity |].
  destruct (String.eqb_spec k0 k) as [-> | Hne]; cbn.
  - exfalso. apply Hnot. now left.
  - f_equal. apply IH. tauto.
Qed.

Lemma remove_app {A} (k : string) (l l' : list (string * A)) :
  remove_entry k (l ++ l') = remove_entry k l ++ remove_entry k l'.
Proof. unfold remove_entry. apply List.filter_app. Qed.

(** ** Well-timed snapshot lists *)

Lemma well_timed_tail (a : clock * string) (l : list (clock * string)) :
  well_timed (a :: l) = true -> well_timed l = true.
Proof. cbn. intros H. now apply andb_true_iff in H as [_ H]. Qed.

Lemma well_timed_drop (n : nat) (l : list (clock * string)) :
  well_timed l = true -> well_timed (drop n l) = true.
Proof.
  revert l. induction n as [| n IH]; intros [| a l] H; cbn [drop]; auto.
  apply IH. now apply well_timed_tail in H.
Qed.

Lemma well_timed_app_l (l1 l2 : list (clock * string)) :
  well_timed (l1 ++ l2) = true -> well_timed l1 = true.
Proof.
  induction l1 as [| a l1 IH]; [reflexivity |].
  cbn. rewrite !andb_true_iff. intros [[Hl Hall] Hrest].
  rewrite forallb_app in Hall. apply andb_true_iff in Hall as [Hall _].
  auto.
Qed.

Lemma well_timed_not_latest (l : list (clock * string)) (a : clock * string) :
  well_timed l = true -> In a l -> timestamp (fst a) <> "latest".
Proof.
  induction l as [| b l IH]; cbn; [contradiction |].
  rewrite !andb_true_iff. intros [[Hl _] Hrest] [<- | Hin].
  - apply negb_true_iff in Hl. now apply String.eqb_neq.
  - now apply IH.
Qed.

(** The newest snapshot is newer than every other and bears another
    timestamp. *)
Lemma well_timed_snoc (l : list (clock * string)) (x a : clock * string) :
  well_timed (l ++ [x]) = true -> In a l ->
  (mtime (fst a) < mtime (fst x))%Z /\ timestamp (fst a) <> timestamp (fst x).
Proof.
  induction l as [| b l IH]; cbn; [contradiction |].
  rewrite !andb_true_iff. intros [[_ Hall] Hrest] [<- | Hin].
  - rewrite forallb_app in Hall. apply andb_true_iff in Hall as [_ Hx].
    cbn in Hx. rewrite andb_true_r in Hx. apply andb_true_iff in Hx as [Hlt Hne].
    split; [now apply Z.ltb_lt | apply negb_true_iff in Hne; now apply String.eqb_neq].
  - now apply IH.
Qed.

Lemma well_timed_head (a : clock * string) (l : list (clock * string)) (b : clock * string) :
  well_timed (a :: l) = true -> In b l ->
  (mtime (fst a) < mtime (fst b))%Z /\ timestamp (fst a) <> timestamp (fst b).
Proof.
  cbn. rewrite !andb_true_iff. intros [[_ Hall] _] Hin.
  rewrite forallb_forall in Hall. specialize (Hall b Hin).
  apply andb_true_iff in Hall as [Hlt Hne].
  split; [now apply Z.ltb_lt | apply negb_true_iff in Hne; now apply String.eqb_neq].
Qed.

Section OneDevice.
Variable n : string.

Lemma fst_file_entry (a : clock * string) :
  fst (file_entry n a) = backup_filename n (timestamp (fst a)).
Proof. reflexivity. Qed.

Lemma snd_file_entry (a : clock * string) :
  snd (file_entry n a) = File (mtime (fst a)) (snd a).
Proof. reflexivity. Qed.

Lemma file_entries_names (l : list (clock * string)) (k : string) :
  In k (map fst (map (file_entry n) l)) ->
  exists a, In a l /\ k = backup_filename n (timestamp (fst a)).
Proof.
  rewrite map_map. intros Hin. apply in_map_iff in Hin as (a & <- & Ha). eauto.
Qed.

(** Snapshots of distinct timestamps are stored under distinct names. *)
Lemma file_entries_NoDup (l : list (clock * string)) :
  well_timed l = true -> List.NoDup (map fst (map (file_entry n) l)).
Proof.
  induction l as [| a l IH]; intros Hw; cbn; constructor.
  - intros Hin. apply file_entries_names in Hin as (b & Hb & Heq).
    apply backup_filename_inj in Heq.
    now destruct (well_timed_head a l b Hw Hb) as [_ Hne].
  - apply IH. now apply well_timed_tail in Hw.
Qed.

(** The alias is none of the stored snapshots. *)
Lemma latest_not_file (l : list (clock * string)) :
  well_timed l = true -> ~ In (latest_name n) (map fst (map (file_entry n) l)).
Proof.
  intros Hw Hin. apply file_entries_names in Hin as (a & Ha & Heq).
  rewrite latest_is_filename in Heq. apply backup_filename_inj in Heq.
  now apply (well_timed_not_latest l a Hw Ha).
Qed.

Lemma insert_desc_oldest (x : string * node) (l : list (string * node)) :
  (forall y, In y l -> (st_mtime_of x < st_mtime_of y)%Z) ->
  insert_desc x l = l ++ [x].
Proof.
  induction l as [| y l IH]; cbn; intros Hall; [reflexivity |].
  destruct (Z.leb_spec (st_mtime_of y) (st_mtime_of x)) as [Hle | Hgt].
  - specialize (Hall y (or_introl eq_refl)). lia.
  - f_equal. apply IH. intros z Hz. apply Hall. now right.
Qed.

(** Files written in order are listed newest first by reversing. *)
Lemma sort_newest_first_files (l : list (clock * string)) :
  well_timed l = true ->
  sort_newest_first (map (file_entry n) l) = rev (map (file_entry n) l).
Proof.
  induction l as [| a l IH]; intros Hw; [reflexivity |].
  cbn [map sort_newest_first rev]. rewrite IH by now apply well_timed_tail in Hw.
  apply insert_desc_oldest. intros y Hy. apply in_rev in Hy.
  apply in_map_iff in Hy as (b & <- & Hb).
  now destruct (well_timed_head a l b Hw Hb) as [Hlt _].
Qed.

(** What the rotation's two filters keep of a device directory. *)
Lemma backup_files_of_layout (l : list (clock * string)) (x : clock * string) :
  well_timed l = true ->
  List.filter (fun f => negb (is_symlink (snd f)) &&
                        negb (String.eqb (fst f) (latest_name n)))
    (List.filter (fun f => matches_backup_glob n (fst f))
       (map (file_entry n) l ++ [link_entry n x]))
  = map (file_entry n) l.
Proof.
  intros Hw. rewrite !List.filter_app. cbn [List.filter link_entry fst snd].
  rewrite latest_is_filename, backup_filename_matches. cbn [List.filter snd is_symlink negb andb].
  rewrite app_nil_r.
  induction l as [| a l IH]; [reflexivity |].
  cbn [map List.filter]. rewrite fst_file_entry, backup_filename_matches.
  cbn [List.filter]. rewrite fst_file_entry, snd_file_entry.
  cbn [is_symlink negb andb]. rewrite filename_eqb.
  assert (Hne : String.eqb (timestamp (fst a)) "latest" = false).
  { apply String.eqb_neq. apply (well_timed_not_latest (a :: l) a Hw). now left. }
  rewrite Hne. cbn [negb]. f_equal. apply IH. now apply well_timed_tail in Hw.
Qed.

(** What [get_device_backups]' filters keep of a device directory. *)
Lemma history_files_of_layout (l : list (clock * string)) (x : clock * string) :
  List.filter (fun f => negb (is_symlink (snd f)))
    (List.filter (fun f => matches_backup_glob n (fst f))
       (map (file_entry n) l ++ [link_entry n x]))
  = map (file_entry n) l.
Proof.
  rewrite !List.filter_app. cbn [List.filter link_entry fst snd].
  rewrite latest_is_filename, backup_filename_matches. cbn [List.filter snd is_symlink negb].
  rewrite app_nil_r.
  induction l as [| a l IH]; [reflexivity |].
  cbn [map List.filter]. rewrite fst_file_entry, backup_filename_matches.
  cbn [List.filter]. rewrite snd_file_entry.
  cbn [is_symlink negb]. f_equal. exact IH.
Qed.

End OneDevice.

(** ** One device directory under rotation *)

Lemma lastn_snoc_last {A} (k : nat) (l : list A) (x : A) :
  1 <= k -> last (lastn k (l ++ [x])) = Some x.
Proof.
  intros Hk. unfold lastn. rewrite length_app. cbn [length].
  rewrite drop_app_le by lia. apply last_snoc.
Qed.

Lemma lastn_snoc {A} (k : nat) (l : list A) (x : A) :
  1 <= k -> lastn k (lastn k l ++ [x]) = lastn k (l ++ [x]).
Proof.
  intros Hk. unfold lastn. rewrite !length_app, length_drop. cbn [length].
  rewrite (drop_app_le l [x]) by lia.
  rewrite (drop_app_le (drop _ l) [x]) by (rewrite length_drop; lia).
  rewrite drop_drop. f_equal. f_equal. lia.
Qed.

Lemma lastn_all {A} (k : nat) (l : list A) : length l <= k -> lastn k l = l.
Proof. intros Hle. unfold lastn. now replace (length l - k) with 0 by lia. Qed.

Lemma lastn_length {A} (k : nat) (l : list A) : k <= length l -> length (lastn k l) = k.
Proof. intros Hle. unfold lastn. rewrite length_drop. lia. Qed.

(** Removing several names, as one filter. *)
Lemma remove_many (files : list (string * node)) (d : directory) :
  fold_left (fun d f => remove_entry (fst f) d) files d =
  List.filter (fun kv => negb (existsb (fun f => String.eqb (fst kv) (fst f)) files)) d.
Proof.
  revert d. induction files as [| f rest IH]; intros d; cbn [fold_left existsb].
  - cbn. now rewrite filter_true.
  - rewrite IH. unfold remove_entry. clear IH.
    induction d as [| kv d IHd]; [reflexivity |]. cbn [List.filter].
    destruct (String.eqb (fst kv) (fst f)); cbn [negb orb List.filter].
    + exact IHd.
    + destruct (existsb _ rest); cbn [negb]; [exact IHd | now rewrite IHd].
Qed.

(** Removing the entries of a prefix leaves the rest. *)
Lemma remove_prefix (old rest : directory) :
  List.NoDup (map fst (old ++ rest)) ->
  fold_left (fun d f => remove_entry (fst f) d) (rev old) (old ++ rest) = rest.
Proof.
  intros Hnd. rewrite remove_many, List.filter_app.
  assert (Hold : List.filter
            (fun kv => negb (existsb (fun f => String.eqb (fst kv) (fst f)) (rev old))) old = []).
  { assert (Hall : forall kv, In kv old ->
              existsb (fun f => String.eqb (fst kv) (fst f)) (rev old) = true).
    { intros kv Hkv. apply existsb_exists. exists kv. split; [now apply in_rev in Hkv |].
      apply String.eqb_refl. }
    revert Hall. generalize (rev old). intros R. clear Hnd.
    induction old as [| kv old IH]; intros Hall; [reflexivity |]. cbn [List.filter].
    rewrite (Hall kv (or_introl eq_refl)). cbn [negb]. apply IH.
    intros kv' Hkv'. apply Hall. now right. }
  rewrite Hold. cbn [app].
  assert (Hrest : forall kv, In kv rest ->
            existsb (fun f => String.eqb (fst kv) (fst f)) (rev old) = false).
  { intros kv Hkv. destruct (existsb _ (rev old)) eqn:Hex; [| reflexivity].
    apply existsb_exists in Hex as (f & Hf & Heq). apply in_rev in Hf.
    apply String.eqb_eq in Heq. exfalso.
    rewrite map_app in Hnd. revert Hnd.
    assert (Hin1 : In (fst kv) (map fst old)) by (rewrite Heq; now apply in_map).
    assert (Hin2 : In (fst kv) (map fst rest)) by now apply in_map.
    clear -Hin1 Hin2. induction (map fst old) as [| k ks IH]; [contradiction |].
    cbn. intros Hnd. apply List.NoDup_cons_iff in Hnd as [Hfresh Hnd].
    destruct Hin1 as [-> | Hin1].
    - apply Hfresh. apply in_or_app. now right.
    - now apply IH. }
  revert Hrest. generalize (rev old). intros R. clear Hnd Hold.
  induction rest as [| kv rest IH]; intros Hrest; [reflexivity |]. cbn [List.filter].
  rewrite (Hrest kv (or_introl eq_refl)). cbn [negb]. f_equal. apply IH.
  intros kv' Hkv'. apply Hrest. now right.
Qed.

Lemma unlink_all_listing (dir : string) (files : list (string * node)) (fs : filesystem) :
  exists fs', unlink_all dir files fs = (Return tt, fs') /\
              listing dir fs' =
                fold_left (fun d f => remove_entry (fst f) d) files (listing dir fs).
Proof.
  revert fs. induction files as [| f rest IH]; intros fs; cbn [unlink_all fold_left].
  - exists fs. split; reflexivity.
  - unfold bind, unlink, modify.
    destruct (IH (put_entry dir (remove_entry (fst f) (listing dir fs)) fs))
      as (fs' & Hrun & Hlist).
    exists fs'. split; [exact Hrun |]. rewrite Hlist, listing_put. reflexivity.
Qed.

Lemma resolve_fresh (fuel : nat) (file : string) (d : directory) :
  lookup_entry file d = None -> resolve fuel file d = Some file.
Proof. intros Hnone. destruct fuel; cbn; now rewrite Hnone. Qed.

Lemma listing_mkdir (dir : string) (fs : filesystem) :
  exists fs', mkdir dir fs = (Return tt, fs') /\ listing dir fs' = listing dir fs.
Proof.
  unfold mkdir, modify. eexists. split; [reflexivity |]. cbn beta.
  unfold listing. destruct (lookup_entry dir fs) as [d |] eqn:Hd.
  - cbn iota. now rewrite Hd.
  - cbn iota. now rewrite lookup_put_same.
Qed.

Section Rotation.
Variable self : Filesystem.
Variable device : Device.
Variable N : Z.
Hypothesis by_device : organize_by self = PStr "device".
Hypothesis keep_N : retention self = PInt N.
Hypothesis N_pos : (1 <= N)%Z.

Let n := name device.
Let dir := path_join (path self) (name device).
Let keep := Z.to_nat N.

Lemma device_mode : eq_str (organize_by self) "device" = true.
Proof. now rewrite by_device. Qed.

Lemma device_dir_by_device (clk : clock) : device_dir_of self clk device = dir.
Proof. unfold device_dir_of. now rewrite device_mode. Qed.

(** The rotation keeps the newest [N] files of the device directory and
    the alias. *)
Lemma rotate_backups_layout (fs : filesystem) (kept : list (clock * string))
    (x : clock * string) :
  well_timed kept = true ->
  listing dir fs = map (file_entry n) kept ++ [link_entry n x] ->
  exists fs', _rotate_backups self dir n fs = (Return tt, fs') /\
              listing dir fs' = map (file_entry n) (lastn keep kept) ++ [link_entry n x].
Proof.
  intros Hw Hlist.
  unfold _rotate_backups, try_except, bind, get, lift.
  rewrite Hlist, backup_files_of_layout, sort_newest_first_files by exact Hw.
  rewrite keep_N. cbn [as_int].
  rewrite length_rev, length_map.
  destruct (Z.gtb_spec (Z.of_nat (length kept)) N) as [Hgt | Hle].
  - unfold slice_from. destruct (Z.leb_spec 0 N) as [_ | Hneg]; [| lia].
    fold keep. rewrite skipn_rev, length_map.
    destruct (unlink_all_listing dir
                (rev (take (length kept - keep) (map (file_entry n) kept))) fs)
      as (fs' & Hrun & Hlist').
    rewrite Hrun. exists fs'. split; [reflexivity |].
    rewrite Hlist', Hlist.
    rewrite <- (take_drop (length kept - keep) (map (file_entry n) kept)) at 2.
    rewrite <- app_assoc. rewrite remove_prefix.
    + unfold lastn. now rewrite skipn_map.
    + rewrite app_assoc, take_drop, map_app. cbn [map link_entry fst].
      apply List.NoDup_app.
      * now apply file_entries_NoDup.
      * constructor; [intros [] | constructor].
      * intros k Hk [<- | []]. now apply (latest_not_file n kept Hw).
  - exists fs. split; [reflexivity |]. rewrite Hlist, lastn_all; [reflexivity |].
    unfold keep. lia.
Qed.

(** One [save_backup] on a device directory laid out by earlier ones. *)
Lemma save_backup_layout (fs : filesystem) (kept : list (clock * string))
    (clk : clock) (config : string) :
  well_timed (kept ++ [(clk, config)]) = true ->
  listing dir fs = layout n kept ->
  exists fs', save_backup self clk device config fs = (Return tt, fs') /\
              listing dir fs' = layout n (lastn keep (kept ++ [(clk, config)])).
Proof.
  intros Hw Hlist. set (x := (clk, config)) in *.
  assert (Hwk : well_timed kept = true) by now apply well_timed_app_l in Hw.
  assert (Hfresh : lookup_entry (backup_filename n (timestamp clk)) (layout n kept) = None).
  { apply lookup_none_notin. unfold layout.
    destruct (last kept) as [newest |]; [| intros []].
    rewrite map_app. cbn [map link_entry fst]. intros Hin.
    apply in_app_or in Hin as [Hin | [Heq | []]].
    - apply file_entries_names in Hin as (a & Ha & Heq).
      apply backup_filename_inj in Heq.
      destruct (well_timed_snoc kept x a Hw Ha) as [_ Hne]. now apply Hne.
    - rewrite latest_is_filename in Heq. apply backup_filename_inj in Heq.
      apply (well_timed_not_latest (kept ++ [x]) x Hw); [| now symmetry].
      apply in_or_app. right. now left. }
  assert (Hfiles : forall d, d = layout n kept ++ [file_entry n x] ->
            (if match lookup_entry (latest_name n) d with Some _ => true | None => false end
             then remove_entry (latest_name n) d else d)
            = map (file_entry n) (kept ++ [x])).
  { intros d ->. unfold layout. destruct (last kept) as [newest |] eqn:Hlast.
    - rewrite (lookup_app_some _ (Symlink (backup_filename n (timestamp (fst newest))))).
      + rewrite !remove_app. rewrite remove_notin by now apply latest_not_file.
        cbn [remove_entry List.filter link_entry file_entry fst].
        rewrite String.eqb_refl. cbn [negb].
        rewrite latest_is_filename, filename_eqb.
        assert (Hne : String.eqb (timestamp (fst x)) "latest" = false).
        { apply String.eqb_neq. apply (well_timed_not_latest (kept ++ [x]) x Hw).
          apply in_or_app. right. now left. }
        rewrite Hne. cbn [negb app]. now rewrite app_nil_r, map_app.
      + rewrite lookup_app_none by (apply lookup_none_notin; now apply latest_not_file).
        cbn. now rewrite String.eqb_refl.
    - apply last_None in Hlast. subst kept. cbn [app map].
      cbn [lookup_entry file_entry]. rewrite latest_is_filename, filename_eqb.
      assert (Hne : String.eqb (timestamp (fst x)) "latest" = false).
      { apply String.eqb_neq. apply (well_timed_not_latest [x] x Hw). now left. }
      now rewrite Hne. }
  unfold save_backup, try_except. rewrite device_dir_by_device.
  unfold bind at 1. destruct (listing_mkdir dir fs) as (fs1 & Hmk & Hl1). rewrite Hmk.
  unfold bind at 1. unfold write_text, bind, get. rewrite Hl1, Hlist.
  fold n. rewrite (resolve_fresh _ _ _ Hfresh), (put_fresh _ _ _ Hfresh).
  unfold modify.
  set (fs2 := put_entry dir (layout n kept ++ [(backup_filename n (timestamp clk),
                                                 File (mtime clk) config)]) fs1).
  assert (Hl2 : listing dir fs2 = layout n kept ++ [file_entry n x]) by apply listing_put.
  unfold exists_or_is_symlink. rewrite Hl2.
  set (fs3 := snd ((if match lookup_entry (latest_name n) (layout n kept ++ [file_entry n x])
                        with Some _ => true | None => false end
                    then unlink dir (latest_name n) else ret tt) fs2)).
  assert (Hstep3 : (if match lookup_entry (latest_name n) (layout n kept ++ [file_entry n x])
                        with Some _ => true | None => false end
                    then unlink dir (latest_name n) else ret tt) fs2 = (Return tt, fs3)).
  { unfold fs3. destruct (lookup_entry (latest_name n) _); reflexivity. }
  assert (Hl3 : listing dir fs3 = map (file_entry n) (kept ++ [x])).
  { rewrite <- (Hfiles _ eq_refl). unfold fs3.
    destruct (lookup_entry (latest_name n) _); cbn [snd unlink modify ret].
    - rewrite listing_put, Hl2. reflexivity.
    - exact Hl2. }
  rewrite Hstep3. unfold symlink_to, modify. rewrite Hl3.
  rewrite (put_fresh (latest_name n) _ (map (file_entry n) (kept ++ [x])))
    by (apply lookup_none_notin; now apply latest_not_file).
  set (fs4 := put_entry dir _ fs3).
  destruct (rotate_backups_layout fs4 (kept ++ [x]) x Hw) as (fs5 & Hrot & Hl5).
  { unfold fs4. rewrite listing_put. reflexivity. }
  rewrite Hrot. exists fs5. split; [reflexivity |].
  rewrite Hl5. unfold layout. rewrite lastn_snoc_last by (unfold keep; lia). reflexivity.
Qed.

(** The device directory after a series of [save_backup]. *)
Lemma save_all_layout (todo done : list (clock * string)) (fs : filesystem) :
  well_timed (done ++ todo) = true ->
  listing dir fs = layout n (lastn keep done) ->
  exists fs', save_all self device todo fs = (Return tt, fs') /\
              listing dir fs' = layout n (lastn keep (done ++ todo)).
Proof.
  revert done fs. induction todo as [| [clk config] todo IH]; intros done fs Hw Hlist.
  - exists fs. rewrite app_nil_r. split; [reflexivity | exact Hlist].
  - cbn [save_all]. unfold bind at 1.
    assert (Hw1 : well_timed (done ++ [(clk, config)]) = true).
    { apply (well_timed_app_l _ todo). now rewrite <- app_assoc. }
    destruct (save_backup_layout fs (lastn keep done) clk config) as (fs1 & Hsave & Hl1).
    + unfold lastn. rewrite <- drop_app_le by lia. now apply well_timed_drop.
    + exact Hlist.
    + rewrite Hsave. rewrite lastn_snoc in Hl1 by (unfold keep; lia).
      destruct (IH (done ++ [(clk, config)]) fs1) as (fs' & Hrun & Hl').
      * now rewrite <- app_assoc.
      * exact Hl1.
      * exists fs'. split; [exact Hrun |]. now rewrite <- app_assoc in Hl'.
Qed.

Lemma st_mtime_file_entry (a : clock * string) :
  st_mtime_of (file_entry n a) = mtime (fst a).
Proof. reflexivity. Qed.

(** The history the sink reports for a device directory. *)
Lemma history_of_layout (fs : filesystem) (kept : list (clock * string)) :
  well_timed kept = true ->
  listing dir fs = layout n kept ->
  get_device_backups self n fs = map (backup_of n) (rev kept).
Proof.
  intros Hw Hlist. unfold get_device_backups. rewrite device_mode. cbv zeta.
  change (path_join (path self) n) with dir.
  assert (Hfiles : flat_map
            (fun kv : string * directory =>
               List.filter (fun f => negb (is_symlink (snd f)))
                 (List.filter (fun f => matches_backup_glob n (fst f)) (snd kv)))
            match lookup_entry dir fs with Some d => [(dir, d)] | None => [] end
          = map (file_entry n) kept).
  { unfold listing in Hlist. unfold layout in Hlist.
    destruct (lookup_entry dir fs) as [d |]; unfold default in Hlist; cbn beta iota in Hlist.
    - unfold Datatypes.id in Hlist. subst d. cbn [flat_map snd]. rewrite app_nil_r.
      destruct (last kept) as [newest |] eqn:Hlast.
      + apply history_files_of_layout.
      + apply last_None in Hlast. now subst kept.
    - destruct (last kept) as [newest |] eqn:Hlast.
      + now destruct (map (file_entry n) kept).
      + apply last_None in Hlast. now subst kept. }
  rewrite Hfiles, sort_newest_first_files by exact Hw.
  rewrite <- map_rev, map_map. apply map_ext. intros a. reflexivity.
Qed.

(** Reading the newest snapshot of a device directory, by its name and
    through the alias. *)
Lemma content_of_layout (fs : filesystem) (kept : list (clock * string))
    (clk : clock) (config : string) :
  well_timed kept = true ->
  listing dir fs = layout n kept ->
  last kept = Some (clk, config) ->
  get_backup_content self n (backup_filename n (timestamp clk)) fs = (Return config, fs) /\
  get_device_last_backup_content self n fs = (Return config, fs).
Proof.
  intros Hw Hlist Hlast. unfold layout in Hlist. rewrite Hlast in Hlist.
  assert (Hin : In (clk, config) kept).
  { apply list_elem_of_In. now apply last_Some_elem_of. }
  assert (Hfile : lookup_entry (backup_filename n (timestamp clk)) (listing dir fs)
                  = Some (File (mtime clk) config)).
  { rewrite Hlist. apply lookup_app_some. apply lookup_in.
    - now apply file_entries_NoDup.
    - apply (in_map (file_entry n)) in Hin. exact Hin. }
  assert (Hlink : lookup_entry (latest_name n) (listing dir fs)
                  = Some (Symlink (backup_filename n (timestamp clk)))).
  { rewrite Hlist.
    rewrite lookup_app_none by (apply lookup_none_notin; now apply latest_not_file).
    cbn. now rewrite String.eqb_refl. }
  assert (Hres1 : forall fuel, resolve fuel (backup_filename n (timestamp clk))
                                       (listing dir fs)
                               = Some (backup_filename n (timestamp clk))).
  { intros fuel. destruct fuel; cbn; now rewrite Hfile. }
  assert (Hres2 : resolve (length (listing dir fs)) (latest_name n) (listing dir fs)
                  = Some (backup_filename n (timestamp clk))).
  { destruct (length (listing dir fs)) as [| fuel] eqn:Hlen.
    - rewrite Hlist, length_app in Hlen. cbn in Hlen. lia.
    - cbn [resolve]. rewrite Hlink. apply Hres1. }
  split.
  - unfold get_backup_content, try_except, bind, get. rewrite device_mode.
    change (path_join (path self) n) with dir.
    unfold exists_, read_text, bind, get. cbn beta iota zeta.
    rewrite !Hres1, !Hfile. cbn beta iota. rewrite ?Hres1, ?Hfile. reflexivity.
  - unfold get_device_last_backup_content, get_backup_content, try_except, bind, get.
    rewrite device_mode. change (path_join (path self) n) with dir.
    unfold exists_, read_text, bind, get. cbn beta iota zeta.
    rewrite !Hres2, !Hfile. cbn beta iota. rewrite ?Hres2, ?Hfile. reflexivity.
Qed.

End Rotation.

Lemma lastn_app_long {A} (k : nat) (l1 l2 : list A) :
  k <= length l2 -> lastn k (l1 ++ l2) = lastn k l2.
Proof.
  intros Hle. unfold lastn. rewrite length_app.
  rewrite drop_app_ge by lia. f_equal. lia.
Qed.

(** C1, as amended. For a device whose name is a plain file name, a
    sink organised by device with retention [N >= 1], a device
    directory that is empty or as earlier [save_backup] calls left it,
    and [K > N] snapshots written one after the other, each under a
    timestamp of its own and with increasing modification times: every
    [save_backup] succeeds; the history the sink then reports is
    exactly the [N] snapshots written last, newest first; the alias
    [latest] reads the text of the snapshot written last; and right
    after each [save_backup] the snapshot it wrote is readable under
    its own name, so the rotation of that same call has not deleted
    it. *)
Theorem rotation_keeps_newest (self : Filesystem) (device : Device) (N : Z)
    (earlier snapshots : list (clock * string)) (fs : filesystem) :
  plain_name (name device) = true ->
  organize_by self = PStr "device" ->
  retention self = PInt N ->
  (1 <= N)%Z ->
  listing (path_join (path self) (name device)) fs =
    layout (name device) (lastn (Z.to_nat N) earlier) ->
  strftime_stamps (earlier ++ snapshots) = true ->
  well_timed (earlier ++ snapshots) = true ->
  (N < Z.of_nat (length snapshots))%Z ->
  exists fs',
    save_all self device snapshots fs = (Return tt, fs') /\
    get_device_backups self (name device) fs' =
      map (backup_of (name device)) (rev (lastn (Z.to_nat N) snapshots)) /\
    length (get_device_backups self (name device) fs') = Z.to_nat N /\
    (forall clk config,
        last snapshots = Some (clk, config) ->
        get_device_last_backup_content self (name device) fs' = (Return config, fs')) /\
    (forall pre clk config post,
        snapshots = pre ++ (clk, config) :: post ->
        exists fs_k,
          save_all self device (pre ++ [(clk, config)]) fs = (Return tt, fs_k) /\
          get_backup_content self (name device)
            (backup_filename (name device) (timestamp clk)) fs_k = (Return config, fs_k)).
Proof.
  intros _ Hdev Hret Hpos Hstart _ Hw Hlen.
  destruct (save_all_layout self device N Hdev Hret Hpos snapshots earlier fs Hw Hstart)
    as (fs' & Hrun & Hlist).
  rewrite lastn_app_long in Hlist by lia.
  assert (Hws : well_timed snapshots = true).
  { rewrite <- (drop_app_length earlier snapshots). now apply well_timed_drop. }
  assert (Hwk : well_timed (lastn (Z.to_nat N) snapshots) = true)
    by now apply well_timed_drop.
  exists fs'. split; [exact Hrun |].
  pose proof (history_of_layout self device Hdev fs' _ Hwk Hlist) as Hhist.
  split; [exact Hhist |]. split; [| split].
  - rewrite Hhist, length_map, length_rev, lastn_length; [reflexivity | lia].
  - intros clk config Hlast.
    eapply content_of_layout
      with (kept := lastn (Z.to_nat N) snapshots); try eassumption.
    apply last_Some in Hlast as [pre ->]. apply lastn_snoc_last. lia.
  - intros pre clk config post ->.
    assert (Hw1 : well_timed (earlier ++ pre ++ [(clk, config)]) = true).
    { apply (well_timed_app_l _ post). now rewrite <- !app_assoc. }
    destruct (save_all_layout self device N Hdev Hret Hpos (pre ++ [(clk, config)]) earlier fs
                Hw1 Hstart) as (fs_k & Hrun_k & Hlist_k).
    exists fs_k. split; [exact Hrun_k |].
    rewrite app_assoc in Hlist_k, Hw1.
    eapply content_of_layout
      with (kept := lastn (Z.to_nat N) ((earlier ++ pre) ++ [(clk, config)]));
      try eassumption.
    + now apply well_timed_drop.
    + apply lastn_snoc_last. lia.
Qed.

End FilesystemSpec.

(* ================================================================== *)
(** * The statements at sample inputs *)
(* ================================================================== *)

Module Scenarios.
Import PluginManagerImpl BackupEngine BackupScheduler FilesystemOutput RotationVocabulary.
Import Samples.

(** C1 as stated fails. With retention 0, one snapshot is written
    ([N = 0 < K = 1]), [save_backup] returns, and the rotation of that
    same call has deleted the snapshot: the history is empty, the file
    just written is gone and the alias [latest] dangles.  With
    retention 2, three snapshots written within one second share one
    file name: one snapshot remains, not two.  With retention 1 and a
    sink organised by date, snapshots written on two days both remain. *)
Lemma rotation_deletes_snapshot_just_written :
  let clk := at_second "20240101_000001" 1 in
  let fs' := snd (save_backup keep_none clk sw1 "config at t1" []) in
  (retention keep_none = PInt 0 /\
   save_backup keep_none clk sw1 "config at t1" [] = (Return tt, fs') /\
   fs' = [("/var/backups/network/sw1",
           [("sw1_latest.cfg", Symlink "sw1_20240101_000001.cfg")])] /\
   get_device_backups keep_none "sw1" fs' = [] /\
   get_backup_content keep_none "sw1" "sw1_20240101_000001.cfg" fs'
     = (Raise FileNotFoundError, fs') /\
   get_device_last_backup_content keep_none "sw1" fs' = (Raise FileNotFoundError, fs')) /\
  length (get_device_backups keep_two "sw1"
            (snd (save_all keep_two sw1 same_second_snapshots []))) = 1 /\
  length (get_device_backups keep_one_by_date "sw1"
            (snd (save_all keep_one_by_date sw1 two_day_snapshots []))) = 2.
Proof. cbv zeta. repeat split; vm_compute; reflexivity. Qed.

(** The rotation theorem on the scenario of the specification:
    retention 2 and snapshots at t1, t2, t3 leave t2 and t3, and the
    alias reads t3. *)
Lemma rotation_keeps_newest_witness :
  exists fs',
    save_all keep_two sw1 three_snapshots [] = (Return tt, fs') /\
    get_device_backups keep_two "sw1" fs' =
      [ {| id := "sw1_20240101_000003.cfg"; creation_time := 3 |};
        {| id := "sw1_20240101_000002.cfg"; creation_time := 2 |} ] /\
    get_device_last_backup_content keep_two "sw1" fs' = (Return "config at t3", fs').
Proof.
  destruct (FilesystemSpec.rotation_keeps_newest keep_two sw1 2 [] three_snapshots [])
    as (fs' & Hrun & Hhist & _ & Hlatest & _).
  - reflexivity.
  - reflexivity.
  - reflexivity.
  - lia.
  - reflexivity.
  - reflexivity.
  - reflexivity.
  - cbn. lia.
  - exists fs'. split; [exact Hrun |]. split; [exact Hhist |].
    apply (Hlatest (at_second "20240101_000003" 3)). reflexivity.
Defined.

(** The unit of work from a fresh scheduler, all going well. *)
Lemma backup_single_device_never_raises_witness :
  exists r w',
    _backup_single_device quiet_env sw1 [sink_a] initial_world = (Return r, w') /\
    ((r = Some "sw1" /\
      exists snapshot w2, snapshot_obtained quiet_env sw1 initial_world snapshot w2) \/
     (r = None /\
      forall snapshot w2, ~ snapshot_obtained quiet_env sw1 initial_world snapshot w2)).
Proof.
  apply (UnitOfWorkSpec.backup_single_device_never_raises quiet_env sw1 [sink_a] initial_world).
  intros t m. cbn. rewrite lookup_empty. discriminate.
Defined.

(** C4 as stated fails. A device whose name is empty is backed up, its
    snapshot is written to the sink, and the run counts it under
    [failed]: the worker returns the name, which the counting loop
    tests for truth.  And of two filesystem sinks configured with
    different paths only the first is ever built: both entries resolve
    to that one object, its directory is the only one created, and the
    snapshot is written to it twice and never below the second path. *)
Lemma nameless_device_counted_failed :
  let sink := {| inst_id := 1; inst_class := "Filesystem";
                 inst_config := filesystem_config |} in
  let run := run_backup nameless_inventory_env sample_config initial_world in
  let twice := run_backup quiet_env two_sinks_config initial_world in
  (exists w2, snapshot_obtained nameless_inventory_env nameless
                (worker_start nameless_inventory_env sample_config initial_world [])
                echo_snapshot w2) /\
  List.filter is_sink_write (trace (snd run)) = [EvSaveBackup sink nameless echo_snapshot] /\
  workers_of_run nameless_inventory_env sample_config initial_world = [Some ""] /\
  fst run = Return {| success := 0; failed := 1; total := 1 |} /\
  outputs_loaded quiet_env two_sinks_config initial_world = [sink; sink] /\
  List.filter is_sink_write (trace (snd twice)) =
    [EvSaveBackup sink sw1 echo_snapshot; EvSaveBackup sink sw1 echo_snapshot] /\
  List.filter (fun ev => match ev with EvMkdir _ => true | _ => false end) (trace (snd twice)) =
    [EvMkdir "/var/backups/network"].
Proof.
  cbv zeta. split.
  - eexists. exists {| model_id := 2; model_cls := CiscoIos |}. eexists.
    split; vm_compute; reflexivity.
  - repeat split; vm_compute; reflexivity.
Qed.

(** A run over two configured sinks that both fail: the snapshot of the
    device is handed to each, in order, and the device is counted under
    [success]. *)
Lemma sink_failures_do_not_demote_witness :
  let E := failing_sinks_env in
  let sink := {| inst_id := 1; inst_class := "Filesystem";
                 inst_config := filesystem_config |} in
  let m := {| model_id := 2; model_cls := CiscoIos |} in
  let start := worker_start E two_sinks_config initial_world [] in
  let w2 := snd (backup_device E sw1 m (snd (get_device_model E "cisco_ios" start))) in
  trace (worker_start E two_sinks_config initial_world [sw1]) =
    trace w2 ++ [EvSaveBackup sink sw1 echo_snapshot; EvSaveBackup sink sw1 echo_snapshot] /\
  exists w', run_backup E two_sinks_config initial_world =
               (Return {| success := 1; failed := 0; total := 1 |}, w').
Proof.
  cbv zeta.
  destruct (FanOutSpec.sink_failures_do_not_demote failing_sinks_env two_sinks_config
              initial_world [] [] sw1 echo_snapshot
              (snd (backup_device failing_sinks_env sw1
                      {| model_id := 2; model_cls := CiscoIos |}
                      (snd (get_device_model failing_sinks_env "cisco_ios"
                              (worker_start failing_sinks_env two_sinks_config
                                 initial_world [])))))
           )
    as (_ & _ & Htrace & earlier & later & res & w' & Hws & Hlen & Hrun & Ht & Hnamed & _).
  - intros t m. cbn. rewrite lookup_empty. discriminate.
  - reflexivity.
  - vm_compute. discriminate.
  - reflexivity.
  - vm_compute. reflexivity.
  - exists {| model_id := 2; model_cls := CiscoIos |}. eexists.
    split; vm_compute; reflexivity.
  - split; [exact Htrace |].
    exists w'. rewrite Hrun.
    destruct Hnamed as [Hs Hf]; [discriminate |].
    destruct earlier as [| n earlier]; [| discriminate Hlen].
    vm_compute in Hws. injection Hws as <-.
    destruct res as [s f t]. cbn in Hs, Hf, Ht. subst s f t. reflexivity.
Defined.

(** NetBox and the filesystem sink resolved twice, the second time with
    another configuration. *)
Lemma load_module_construction_once_witness :
  let source := {| inst_id := 0; inst_class := "Netbox"; inst_config := netbox_config |} in
  let sink := {| inst_id := 0; inst_class := "Filesystem"; inst_config := filesystem_config |} in
  let w1 := snd (load_input_module quiet_env "netbox" netbox_config initial_world) in
  let w2 := snd (load_output_module quiet_env "filesystem" filesystem_config initial_world) in
  load_input_module quiet_env "netbox" other_netbox_config w1 = (Return source, w1) /\
  load_output_module quiet_env "filesystem" other_filesystem_config w2 = (Return sink, w2).
Proof.
  cbv zeta. split.
  - destruct (PluginManagerSpec.load_module_construction_once quiet_env "netbox"
                netbox_config other_netbox_config initial_world
                (snd (load_input_module quiet_env "netbox" netbox_config initial_world))
                {| inst_id := 0; inst_class := "Netbox"; inst_config := netbox_config |})
      as [Hin _].
    apply Hin. reflexivity.
  - destruct (PluginManagerSpec.load_module_construction_once quiet_env "filesystem"
                filesystem_config other_filesystem_config initial_world
                (snd (load_output_module quiet_env "filesystem" filesystem_config
                        initial_world))
                {| inst_id := 0; inst_class := "Filesystem";
                   inst_config := filesystem_config |})
      as [_ Hout].
    apply Hout. reflexivity.
Defined.

(** An inventory without devices, and a configuration without outputs. *)
Lemma run_backup_empty_input_or_output_witness :
  (exists w', run_backup empty_inventory_env sample_config initial_world
                = (Return zero_results, w') /\
              calls_only not_sink_write initial_world w') /\
  (exists w', run_backup quiet_env no_output_config initial_world
                = (Return {| success := 0; failed := 0; total := 1 |}, w') /\
              calls_only not_session_event initial_world w' /\
              calls_only not_sink_write initial_world w').
Proof.
  split.
  - destruct (RunSpec.run_backup_empty_input_or_output empty_inventory_env sample_config
                initial_world) as [Hzero _].
    apply Hzero. reflexivity.
  - destruct (RunSpec.run_backup_empty_input_or_output quiet_env no_output_config
                initial_world) as [_ Hnone].
    apply Hnone; [discriminate | reflexivity].
Defined.

(** A session in which both commands are answered, and one in which the
    second command times out. *)
Lemma backup_device_snapshot_witness :
  fst (backup_device quiet_env sw1 ios_model initial_world) = Return (Some echo_snapshot) /\
  (exists outs,
      answers quiet_env sw1 [EvConnect sw1] ["show version"; "show running-config"] outs /\
      echo_snapshot = Models.process_config ios_model
                        (snapshot_text ["show version"; "show running-config"] outs)) /\
  (exists w', backup_device flaky_env sw1 ios_model initial_world = (Return None, w') /\
              trace w' = [EvConnect sw1; EvSendCommand sw1 "show version";
                          EvSendCommand sw1 "show running-config"; EvDisconnect sw1]).
Proof.
  split; [reflexivity |]. split.
  - destruct (PipelineSpec.backup_device_snapshot quiet_env sw1 ios_model initial_world)
      as [Hok _].
    destruct (Hok echo_snapshot
                  (snd (backup_device quiet_env sw1 ios_model initial_world)) eq_refl)
      as (outs & Hans & Hsnap & _).
    exists outs. split; [exact Hans | exact Hsnap].
  - destruct (PipelineSpec.backup_device_snapshot flaky_env sw1 ios_model initial_world)
      as [_ Habort].
    apply (Habort 1 "show running-config" ReadTimeout ["show version"]).
    + reflexivity.
    + reflexivity.
    + repeat constructor.
    + reflexivity.
Defined.

(** Two devices upserted twice into a table that already has a row,
    under a clock that advances with every call to SQLite: each
    statement stamps its row with its own second. *)
Lemma upsert_devices_twice_witness :
  exists w1 w2,
    DeviceDatabase.upsert_devices ticking_env [sw1; sw2] stale_world = (Return tt, w1) /\
    DeviceDatabase.upsert_devices ticking_env [sw1; sw2] w1 = (Return tt, w2) /\
    map row_name (database w2) = ["old-router"; "sw1"; "sw2"] /\
    map forget_last_backup (database w2) = map forget_last_backup (database w1) /\
    map row_last_backup (database w1) = [0; 1000001; 1000002]%Z /\
    map row_last_backup (database w2) = [0; 1000005; 1000006]%Z.
Proof.
  destruct (DeviceDatabaseSpec.upsert_devices_twice ticking_env [sw1; sw2] stale_world)
    as (w1 & w2 & Hrun1 & Hrun2 & _ & _ & Hsame & _).
  - repeat constructor. intros [].
  - intros h ev. cbn. rewrite length_app. cbn. lia.
  - reflexivity.
  - exists w1, w2.
    assert (Hw1 : w1 = snd (DeviceDatabase.upsert_devices ticking_env [sw1; sw2] stale_world))
      by (rewrite Hrun1; reflexivity).
    assert (Hw2 : w2 = snd (DeviceDatabase.upsert_devices ticking_env [sw1; sw2] w1))
      by (rewrite Hrun2; reflexivity).
    split; [exact Hrun1 |]. split; [exact Hrun2 |].
    split; [rewrite Hw2, Hw1; reflexivity |].
    split; [exact Hsame |].
    split; [rewrite Hw1; reflexivity | rewrite Hw2, Hw1; reflexivity].
Defined.

(** A run that completes, and one whose worker pool cannot be built. *)
Lemma run_backup_counts_witness :
  (exists w', run_backup quiet_env zero_workers_config initial_world
                = (Return zero_results, w')) /\
  (exists w', run_backup quiet_env sample_config initial_world
                = (Return {| success := 1; failed := 0; total := 1 |}, w')).
Proof.
  split.
  - destruct (RunSpec.run_backup_counts quiet_env zero_workers_config initial_world)
      as (_ & Hraise & _).
    eexists. apply (Hraise ValueError). reflexivity.
  - destruct (RunSpec.run_backup_counts quiet_env sample_config initial_world)
      as (_ & _ & Hret).
    eexists.
    apply (Hret {| success := 1; failed := 0; total := 1 |}
                (snd (run_backup_try quiet_env sample_config
                        (stamped quiet_env initial_world)))).
    + reflexivity.
    + discriminate.
    + discriminate.
Defined.

End Scenarios.

(* ================================================================== *)
(** * Further properties of the capability registry *)
(* ================================================================== *)

Module RegistryMore.
Import PluginManagerImpl.






(** ** Letter case in type names *)













(** ** Failing loads *)









(** ** The device models *)





End RegistryMore.

(* ================================================================== *)
(** * Further properties of the pipeline and of a run *)
(* ================================================================== *)

Module RunMore.
Import PluginManagerImpl BackupEngine BackupScheduler FrameRules RunSpec.



(** ** What a run leaves in the scheduler's state *)









End RunMore.

(* ================================================================== *)
(** * What a run returns and what it writes to the device table *)
(* ================================================================== *)

Module RunOutcome.
Import PluginManagerImpl BackupEngine BackupScheduler DeviceDatabase FrameRules RunSpec.
Import WorkersSpec.














(** ** The database methods *)





End RunOutcome.

(* ================================================================== *)
(** * Further properties of the filesystem sink *)
(* ================================================================== *)

Module FilesystemMore.
Import FilesystemOutput RotationVocabulary StringFacts FilesystemSpec.



(** ** One device, one directory *)


















End FilesystemMore.
